(** * NURBSToolkit: knot vectors and knot insertion (nurbstk/knots.h)

    A shallow embedding of the helper functions of [knots.h] and the
    properties of their specification that were checked against them.

    - C++ [std::vector<T>] is a [list T]; indexing is partial.
    - [unsigned int], [size_t] and [int] values are [Z] with the
      wrap-around of unsigned arithmetic and of conversions written out.
    - [None] stands for undefined behaviour: an access outside a vector,
      or the overflow of an [int]. A loop [for (int i = lo; ...; i++)]
      whose counter is incremented at [INT_MAX] has no result.
    - the template parameter [T] is a type class, with an IEEE 754
      binary64 instance ([double]) and an exact instance (rationals). The
      builders compute their step and their interior knots in [double]
      for every [T], as the source does, and convert the result to [T]. *)

From Stdlib Require Import ZArith QArith Qreduction Qabs Qpower Lia SpecFloat.
From stdpp Require Import base option list.

Local Open Scope Z_scope.

(** ** Machine integers *)

Module MachInt.

Definition UINT_MAX : Z := 4294967295.
Definition INT_MAX : Z := 2147483647.
Definition INT_MIN : Z := -2147483648.

(** value of an [unsigned int] expression *)
Definition u32 (z : Z) : Z := z mod 2 ^ 32.
(** value of a [size_t] expression *)
Definition u64 (z : Z) : Z := z mod 2 ^ 64.
(** conversion to [int] (two's complement) *)
Definition s32 (z : Z) : Z := (z + 2 ^ 31) mod 2 ^ 32 - 2 ^ 31.

Definition is_uint (z : Z) : Prop := 0 <= z <= UINT_MAX.
Definition is_size_t (z : Z) : Prop := 0 <= z < 2 ^ 64.

End MachInt.
Import MachInt.

(** ** The scalar type [T] of the templates *)

Class Scalar (T : Type) := {
  s_zero : T;                 (* the literal 0.0 as a T *)
  s_one : T;                  (* the literal 1.0 as a T *)
  s_add : T -> T -> T;
  s_sub : T -> T -> T;
  s_mul : T -> T -> T;
  s_div : T -> T -> T;
  s_abs : T -> T;             (* std::abs *)
  s_ltb : T -> T -> bool;     (* operator< *)
  s_leb : T -> T -> bool;     (* operator<= *)
  s_eps : T;                  (* std::numeric_limits<T>::epsilon() *)
  s_of_double : spec_float -> T   (* conversion of a double to T *)
}.

(** the rational that a finite [double] stands for, [m * 2^e]; an
    infinity and a NaN stand for no rational *)
Definition Q_of_double (x : spec_float) : Q :=
  match x with
  | S754_finite s m e =>
      Qred ((if s then -1 else 1) * inject_Z (Zpos m) * (2 # 1) ^ e)
  | _ => 0%Q
  end.

(** Exact arithmetic: rationals kept in lowest terms, so that equal values
    are equal terms. A quotient by zero has no value in exact arithmetic
    (it is an infinity or a NaN in IEEE arithmetic); [Qdiv] answers 0, and
    what is proved of a quotient in this instance assumes that its
    denominator does not vanish. For a type without a specialisation,
    [numeric_limits<T>::epsilon()] is [T()], which is zero. *)
#[export] Instance Q_Scalar : Scalar Q := {|
  s_zero := 0%Q;
  s_one := 1%Q;
  s_add x y := Qred (x + y);
  s_sub x y := Qred (x - y);
  s_mul x y := Qred (x * y);
  s_div x y := Qred (x / y);
  s_abs x := Qred (Qabs x);
  s_ltb x y := match (x ?= y)%Q with Lt => true | _ => false end;
  s_leb x y := Qle_bool x y;
  s_eps := 0%Q;
  s_of_double := Q_of_double
|}.

(** IEEE 754 binary64 ([double]), round to nearest even. *)
Module Binary64.

Definition prec : Z := 53.
Definition emax : Z := 1024.

(** conversion of an [int] to [double]; it is exact *)
Definition of_int (z : Z) : spec_float := binary_normalize prec emax z 0 false.

Definition mul : spec_float -> spec_float -> spec_float := SFmul prec emax.
Definition div : spec_float -> spec_float -> spec_float := SFdiv prec emax.

#[export] Instance double_Scalar : Scalar spec_float := {|
  s_zero := S754_zero false;
  s_one := of_int 1;
  s_add := SFadd prec emax;
  s_sub := SFsub prec emax;
  s_mul := mul;
  s_div := div;
  s_abs := SFabs;
  s_ltb := SFltb;
  s_leb := SFleb;
  s_eps := S754_finite false 4503599627370496 (-104);
  s_of_double x := x
|}.

End Binary64.
#[global] Existing Instance Binary64.double_Scalar.

(** *** The place of a value between two mantissas

    Rounding works on a mantissa [m] and on the place of the value to
    round between [m] and [m + 1], which [SpecFloat] keeps as a
    [location] or as two bits, the round bit [r] and the sticky bit [s].
    [located D rho r s] says that these bits stand for the value
    [m + rho / D]: [rho] is 0 when the value is [m] itself, [2 * rho] is
    less than, equal to or more than [D] when it is below, at or above
    the middle. *)
Definition located (D rho : Z) (r s : bool) : Prop :=
  0 <= rho < D
  /\ (r = true <-> D <= 2 * rho)
  /\ (s = true <-> rho <> 0 /\ 2 * rho <> D).

(** the two bits of a [location] *)
Definition loc_r (l : location) : bool :=
  match l with loc_Inexact Eq | loc_Inexact Gt => true | _ => false end.

Definition loc_s (l : location) : bool :=
  match l with loc_Inexact Lt | loc_Inexact Gt => true | _ => false end.

(** ** Loops *)

(** [for (int i = lo; ...; i++) body], run [n] times on the state [s]. The
    body can fail. The increment [i++] is made after every run of the
    body, the last one included; at [INT_MAX] it is a signed overflow,
    which is undefined behaviour. *)
Fixpoint for_int {S : Type} (n : nat) (lo : Z) (body : Z -> S -> option S)
    (s : S) : option S :=
  match n with
  | O => Some s
  | S n' => match body lo s with
            | Some s' =>
                if lo <? INT_MAX then for_int n' (lo + 1) body s' else None
            | None => None
            end
  end.

(** the same loop over a counter without bound; [for_int] is this loop as
    long as the counter stays below [INT_MAX] *)
Fixpoint for_upM {S : Type} (n : nat) (lo : Z) (body : Z -> S -> option S) (s : S)
  : option S :=
  match n with
  | O => Some s
  | S n' => match body lo s with
            | Some s' => for_upM n' (lo + 1) body s'
            | None => None
            end
  end.

(** ** KnotVectorBuilder *)

(** What a call of a builder can do: return its boolean with the caller's
    vector in its final state, leave through [std::length_error] (thrown by
    [reserve] for a count above [max_size()]), run into undefined
    behaviour (the overflow of an [int]), or still be running when the
    fuel of the model is spent. *)
Inductive outcome (T : Type) : Type :=
| Returned (ok : bool) (knots : list T)
| LengthError (knots : list T)
| Undefined
| OutOfFuel.
Arguments Returned {T} ok knots.
Arguments LengthError {T} knots.
Arguments Undefined {T}.
Arguments OutOfFuel {T}.

Section Builders.
Context {T : Type} `{Scalar T}.

(** [nCtrlPts < degree + 1]: the sum is an [unsigned int], compared as
    [size_t] *)
Definition tooFewCtrlPts (degree nCtrlPts : Z) : bool :=
  nCtrlPts <? u32 (degree + 1).

(** [int nKnots = nCtrlPts + degree + 1;] *)
Definition nKnotsOf (degree nCtrlPts : Z) : Z :=
  s32 (u64 (nCtrlPts + degree + 1)).

(** [for (T u = 0.0; u <= 1.0; u += step) knots.push_back(u);] *)
Fixpoint uniformLoop (fuel : nat) (step u : T) (knots : list T)
  : option (list T) :=
  match fuel with
  | O => None
  | S fuel' =>
      if s_leb u s_one
      then uniformLoop fuel' step (s_add u step) (knots ++ [u])
      else Some knots
  end.

(** [T step = 1.0 / (nKnots - 1);]: a quotient of [double]s, converted to
    [T] *)
Definition uniformStep (nKnots : Z) : T :=
  s_of_double (Binary64.div (Binary64.of_int 1) (Binary64.of_int (nKnots - 1))).

Definition makeUniformKnotVector (fuel : nat) (degree nCtrlPts : Z)
    (knots : list T) : outcome T :=
  if tooFewCtrlPts degree nCtrlPts then Returned false knots
  else
    let nKnots := nKnotsOf degree nCtrlPts in
    if nKnots =? INT_MIN then Undefined          (* nKnots - 1 overflows *)
    else
      let step := uniformStep nKnots in
      let knots := @nil T in                     (* knots.clear() *)
      if nKnots <? 0 then LengthError knots      (* knots.reserve(nKnots) *)
      else
        match uniformLoop fuel step s_zero knots with
        | Some knots => Returned true knots
        | None => OutOfFuel
        end.

(** [int nIntKnots = nKnots - 2 * degree;]: computed as [unsigned int] *)
Definition nIntKnotsOf (degree nKnots : Z) : Z :=
  s32 (u32 (u32 nKnots - u32 (2 * degree))).

(** [static_cast<double>(i) * step] with the [double step =
    1.0 / (nIntKnots - 1)], converted to [T] by [push_back] *)
Definition interiorKnot (nIntKnots i : Z) : T :=
  s_of_double
    (Binary64.mul (Binary64.of_int i)
       (Binary64.div (Binary64.of_int 1) (Binary64.of_int (nIntKnots - 1)))).

(** [knots.push_back(x)] as the body of a loop *)
Definition push_back (x : T) (knots : list T) : option (list T) :=
  Some (knots ++ [x]).

Definition makeClampedUniformKnotVector (degree nCtrlPts : Z)
    (knots : list T) : outcome T :=
  if tooFewCtrlPts degree nCtrlPts then Returned false knots
  else
    let nKnots := nKnotsOf degree nCtrlPts in
    let nIntKnots := nIntKnotsOf degree nKnots in
    let knots := @nil T in                       (* knots.clear() *)
    if nKnots <? 0 then LengthError knots        (* knots.reserve(nKnots) *)
    else
      let filled :=
        (* Clamp left side *)
        knots ← for_int (Z.to_nat degree) 0 (fun _ => push_back s_zero) knots;
        (* Interior knots *)
        knots ← (if 0 <? nIntKnots then
                   for_int (Z.to_nat nIntKnots) 0
                     (fun i => push_back (interiorKnot nIntKnots i)) knots
                 else Some knots);
        (* Clamp right side *)
        for_int (Z.to_nat degree) 0 (fun _ => push_back s_one) knots in
      match filled with
      | Some knots => Returned true knots
      | None => Undefined
      end.

End Builders.

(** ** [std::vector] accesses *)

Section Vectors.
Context {A : Type}.

(** [v[idx]] read, [idx] being the [size_t] value of the index *)
Definition at_ (v : list A) (idx : Z) : option A :=
  if (0 <=? idx) && (idx <? Z.of_nat (length v))
  then v !! Z.to_nat idx else None.

(** [v[idx] = x] *)
Definition vec_set (v : list A) (idx : Z) (x : A) : option (list A) :=
  if (0 <=? idx) && (idx <? Z.of_nat (length v))
  then Some (<[Z.to_nat idx := x]> v) else None.

(** [v.insert(pos, x)]: [x] is placed before the element at position
    [pos]; the positions [0 .. size] are valid *)
Definition vec_insert (v : list A) (pos : Z) (x : A) : option (list A) :=
  if (0 <=? pos) && (pos <=? Z.of_nat (length v))
  then Some (take (Z.to_nat pos) v ++ x :: drop (Z.to_nat pos) v)
  else None.

End Vectors.

(** ** KnotClamper, KnotVectorValidator *)

Section Knots.
Context {T : Type} `{Scalar T}.

Definition clampKnotVectorLeft (degree : Z) (knots : list T)
  : option (list T) :=
  start ← at_ knots degree;
  for_int (Z.to_nat degree) 0 (fun i k => vec_set k (u64 i) start) knots.

Definition clampKnotVectorRight (degree : Z) (knots : list T)
  : option (list T) :=
  end_ ← at_ knots (u64 (Z.of_nat (length knots) - degree - 1));
  for_int (Z.to_nat degree) 0
    (fun i k => vec_set k (u64 (Z.of_nat (length k) - 1 - i)) end_) knots.

Definition clampKnotVector (degree : Z) (knots : list T) : option (list T) :=
  knots ← clampKnotVectorLeft degree knots;
  clampKnotVectorRight degree knots.

(** [std::is_sorted]: no element is less than its predecessor *)
Fixpoint is_sorted (l : list T) : bool :=
  match l with
  | a :: (b :: _) as rest => negb (s_ltb b a) && is_sorted rest
  | _ => true
  end.

Definition isKnotVectorMonotonic (knots : list T) : bool := is_sorted knots.

(** the loop of [isKnotVectorClosed], [n] iterations from [i] on; the
    [int] counter is incremented after each iteration that has not
    returned *)
Fixpoint closedLoop (n : nat) (i : Z) (degree : Z) (knots : list T)
  : option bool :=
  match n with
  | O => Some true
  | S n' =>
      x ← at_ knots (u64 i);
      y ← at_ knots (u64 (Z.of_nat (length knots) - degree - 2 + i));
      if s_ltb s_eps (s_abs (s_sub x y)) then Some false
      else if i <? INT_MAX then closedLoop n' (i + 1) degree knots
      else None
  end.

(** the bound [degree + 2] of the loop is an [unsigned int] *)
Definition isKnotVectorClosed (degree : Z) (knots : list T) : option bool :=
  closedLoop (Z.to_nat (u32 (degree + 2))) 0 degree knots.

End Knots.

(** ** KnotInsertion *)

Section Insertion.
Context {T : Type} `{Scalar T}.
(** dimension of the control points, [glm::vec<T, n>] *)
Variable n : nat.
(** what [findSpan] answers where the specification names no span *)
Variable elsewhere : T -> Z -> list T -> Z.

Definition vec : Type := list T.
Definition tvecn (x : T) : vec := replicate n x.
Definition vscale (a : T) (p : vec) : vec := map (s_mul a) p.
Definition vadd (p q : vec) : vec := zip_with s_add p q.

(** [(1 - a) * p + a * q] *)
Definition blend (a : T) (p q : vec) : vec :=
  vadd (vscale (s_sub s_one a) p) (vscale a q).

(** the first index [i + k] with [knots[k] <= u < knots[k + 1]] *)
Fixpoint findSpanFrom (i : Z) (u : T) (knots : list T) : option Z :=
  match knots with
  | a :: (b :: _) as rest =>
      if s_leb a u && s_ltb u b then Some i
      else findSpanFrom (i + 1) u rest
  | _ => None
  end.

(** Modelled from the spec: [findSpan] is called by the insertion
    functions but is not defined in [knots.h]. Section 4.4, step 1:
    "Locate span, the index such that knots[span] <= u < knots[span+1]".
    Where such an index exists, it is the answer (the first one, when the
    knot vector is not monotonic and there are several). Where there is
    none, as for every [u] outside the domain, the specification fixes no
    answer, and the answer is the parameter [elsewhere]: what is proved
    below holds for every choice of it. *)
Definition findSpan (u : T) (deg : Z) (knots : list T) : Z :=
  match findSpanFrom 0 u knots with
  | Some span => span
  | None => elsewhere u deg knots
  end.

(** the blend coefficient [(u - knots[lo]) / (knots[hi] - knots[lo'])] *)
Definition coeff (u : T) (knots : list T) (lo hi lo' : Z) : option T :=
  klo ← at_ knots lo;
  khi ← at_ knots hi;
  klo' ← at_ knots lo';
  Some (s_div (s_sub u klo) (s_sub khi klo')).

(** [cp[i] = (1 - a) * cp[i - 1] + a * cp[i];] *)
Definition blendAt (a : T) (i : Z) (cp : list vec) : option (list vec) :=
  p ← at_ cp (u64 (i - 1));
  q ← at_ cp (u64 i);
  vec_set cp (u64 i) (blend a p q).

(** The parameter list of the source is not well formed C++
    ([std::vector<glm::vec<T, n> &knots]). The body uses [knots] as a
    vector of scalars and [cp] as a vector of points, and calls
    [insert] with the index [span] where [std::vector] takes an iterator;
    [insert] is taken at the position [begin() + span]. *)
Definition curveInsertKnot (u : T) (deg : Z) (knots : list T)
    (cp : list vec) : option (list T * list vec) :=
  let span := findSpan u deg knots in
  (* Insert new control point and knot between span and (span + 1) *)
  knots ← vec_insert knots span u;
  cp ← vec_insert cp span (tvecn s_zero);
  (* Compute new positions for affected control points *)
  let lo := s32 (span - deg + 1) in
  cp ← for_int (Z.to_nat (span - lo + 1)) lo
         (fun i cp =>
            a ← coeff u knots (u64 i) (u32 (i + deg)) (u64 i);
            blendAt a i cp) cp;
  Some (knots, cp).

(** [cp[i].insert(span, tvecn(0.0))] for the row [i] *)
Definition insertInRow (span : Z) (i : Z) (cp : list (list vec))
  : option (list (list vec)) :=
  row ← at_ cp (u64 i);
  row ← vec_insert row span (tvecn s_zero);
  vec_set cp (u64 i) row.

(** [cp[i][j] = (1 - a) * cp[i][j - 1] + a * cp[i][j];] *)
Definition blendInRow (a : T) (i j : Z) (cp : list (list vec))
  : option (list (list vec)) :=
  row ← at_ cp (u64 i);
  row ← blendAt a j row;
  vec_set cp (u64 i) row.

Definition surfaceInsertKnotU (u : T) (deg : Z) (knots : list T)
    (cp : list (list vec)) : option (list T * list (list vec)) :=
  let span := findSpan u deg knots in
  (* Insert new control point and knot between span and (span + 1) *)
  knots ← vec_insert knots span u;
  cp ← for_int (length cp) 0 (insertInRow span) cp;
  (* Compute new positions for affected control points *)
  let lo := s32 (span - deg + 1) in
  cp ← for_int (length cp) 0
         (fun i cp =>
            for_int (Z.to_nat (span - lo + 1)) lo
              (fun j cp =>
                 a ← coeff u knots (u64 i) (u32 (i + deg)) (u64 j);
                 blendInRow a i j cp) cp) cp;
  Some (knots, cp).

End Insertion.

(** ** Curve evaluation and the insertion the specification describes *)

Section Evaluation.
Context {T : Type} `{Scalar T}.
Variable n : nat.
Variable elsewhere : T -> Z -> list T -> Z.

Definition knot (knots : list T) (i : nat) : T := default s_zero (knots !! i).

Definition is_zero (x : T) : bool := s_leb x s_zero && s_leb s_zero x.

(** a quotient of the recursion below, with the convention 0/0 = 0 *)
Definition ratio (num den : T) : T :=
  if is_zero den then s_zero else s_div num den.

(** Modelled from the spec: the evaluation of a curve is not part of
    [knots.h]. The "geometric shape" of section 4.4 is the B-spline
    curve of the glossary, the sum of the control points weighted by
    the basis functions of the Cox-de Boor recursion over the knot
    vector. [basis p i knots t] is the basis function of degree [p]
    that starts at knot [i]. *)
Fixpoint basis (p : nat) (i : nat) (knots : list T) (t : T) : T :=
  match p with
  | O =>
      if s_leb (knot knots i) t && s_ltb t (knot knots (i + 1)%nat)
      then s_one else s_zero
  | S p' =>
      s_add
        (s_mul (ratio (s_sub t (knot knots i))
                      (s_sub (knot knots (i + S p')%nat) (knot knots i)))
               (basis p' i knots t))
        (s_mul (ratio (s_sub (knot knots (i + S p' + 1)%nat) t)
                      (s_sub (knot knots (i + S p' + 1)%nat)
                             (knot knots (i + 1)%nat)))
               (basis p' (i + 1)%nat knots t))
  end.

(** Modelled from the spec: the point of the curve at the parameter [t],
    the sum over the control points [cp[i]] of [basis deg i] times
    [cp[i]]. *)
Definition curvePoint (deg : nat) (knots : list T) (cp : list (vec))
    (t : T) : vec :=
  foldr (vadd) (tvecn n s_zero)
    (imap (fun i p => vscale (basis deg i knots t) p) cp).

(** Modelled from the spec: section 4.4, steps 1 to 4, read as written
    there: the knot goes in "immediately after index span", and "for i
    from span - deg + 1 to span" the new control point [i] is
    [(1-a) * oldCP[i-1] + a * oldCP[i]] with
    [a = (u - knots[i]) / (knots[i+deg] - knots[i])], all on the
    "pre-insertion" values. The control points before the window keep
    their place and those from [span] on move up by one. *)
Definition specInsertKnot (u : T) (deg : nat) (knots : list T)
    (cp : list vec) : list T * list vec :=
  let span := Z.to_nat (findSpan elsewhere u (Z.of_nat deg) knots) in
  let lo := (span + 1 - deg)%nat in
  let pt (i : nat) : vec := default (tvecn n s_zero) (cp !! i) in
  let a (i : nat) : T :=
    s_div (s_sub u (knot knots i))
          (s_sub (knot knots (i + deg)%nat) (knot knots i)) in
  (take (span + 1) knots ++ u :: drop (span + 1) knots,
   take lo cp
     ++ map (fun i => blend (a i) (pt (i - 1)%nat) (pt i)) (seq lo deg)
     ++ drop span cp).

End Evaluation.


(** the knot vector a successful call of a builder leaves to its caller *)
Definition success {T : Type} (o : outcome T) : option (list T) :=
  match o with
  | Returned true knots => Some knots
  | _ => None
  end.

(** ** Inputs of the worked scenarios *)

Module Scenario.
Import Binary64.
Local Open Scope Q_scope.

(** section 8 of the specification: degree 2, four control points in the
    plane, clamped-uniform knot vector *)
Definition knots8 : list Q := [0; 0; 0; 1 # 2; 1; 1; 1].
Definition cp8 : list (list Q) := [[0; 0]; [1; 2]; [3; 3]; [4; 0]].

(** degree 2 over the uniform knot vector 0 .. 6; its domain is [2, 4] *)
Definition knotsU : list Q := [0; 1; 2; 3; 4; 5; 6].

(** a surface of degree 2 with two equal rows of seven control points over
    the uniform knot vector 0 .. 9; its domain is [2, 7] *)
Definition knotsS : list Q := [0; 1; 2; 3; 4; 5; 6; 7; 8; 9].
Definition rowS : list (list Q) :=
  [[0; 0]; [1; 2]; [3; 3]; [4; 0]; [5; 1]; [6; 2]; [7; 0]].

(** a span finder for the parameters the specification names no span
    for: it answers 0 there. None of the scenarios consults it. *)
Definition first_span : Q -> Z -> list Q -> Z := fun _ _ _ => 0%Z.

(** the [double] with mantissa [m] and exponent [e], [m * 2^e] *)
Definition dbl (m : positive) (e : Z) : spec_float := S754_finite false m e.

(** what [makeUniformKnotVector<double>(3, 6, knots)] leaves in [knots]:
    0, then the sums of 1, 2, ..., 8 steps of [1.0 / 9], rounded at each
    addition; the last one is 0.88888888888888906 *)
Definition uniform_3_6_double : list spec_float :=
  [S754_zero false;
   dbl 8006399337547548 (-56); dbl 8006399337547548 (-55);
   dbl 6004799503160661 (-54); dbl 8006399337547548 (-54);
   dbl 5003999585967218 (-53); dbl 6004799503160662 (-53);
   dbl 7005599420354106 (-53); dbl 8006399337547550 (-53)].

(** what [makeUniformKnotVector<double>(2, 4, knots)] leaves: seven
    knots, the last one [1 - 2^-53] *)
Definition uniform_2_4_double : list spec_float :=
  [S754_zero false;
   dbl 6004799503160661 (-55); dbl 6004799503160661 (-54);
   dbl 4503599627370496 (-53); dbl 6004799503160661 (-53);
   dbl 7505999378950826 (-53); dbl 9007199254740991 (-53)].

(** what [makeClampedUniformKnotVector<double>(2, 4294967301, knots)]
    leaves: eight knots, 0, 0, 0, 0.333..., 0.666..., 1, 1, 1 *)
Definition clamped_truncated_double : list spec_float :=
  [S754_zero false; S754_zero false; S754_zero false;
   dbl 6004799503160661 (-54); dbl 6004799503160661 (-53);
   dbl 4503599627370496 (-52);
   dbl 4503599627370496 (-52); dbl 4503599627370496 (-52)].

(** what [makeClampedUniformKnotVector<double>(2, 4, knots)] leaves:
    0, 0, 0, 0.5, 1, 1, 1 *)
Definition clamped_2_4_double : list spec_float :=
  [S754_zero false; S754_zero false; S754_zero false;
   dbl 4503599627370496 (-53);
   dbl 4503599627370496 (-52); dbl 4503599627370496 (-52);
   dbl 4503599627370496 (-52)].

End Scenario.

(** * Properties *)

(** ** Machine integers *)

Lemma u32_small z : 0 <= z <= UINT_MAX -> u32 z = z.
Proof. unfold u32, UINT_MAX. intros. apply Z.mod_small. lia. Qed.

Lemma u64_small z : 0 <= z < 2 ^ 64 -> u64 z = z.
Proof. unfold u64. intros. apply Z.mod_small. lia. Qed.

Lemma s32_small z : - 2 ^ 31 <= z <= INT_MAX -> s32 z = z.
Proof.
  unfold s32, INT_MAX. intros.
  rewrite Z.mod_small by lia. lia.
Qed.

Lemma u32_le z : 0 <= z -> u32 z <= z.
Proof. unfold u32. intros. apply Z.mod_le; lia. Qed.

Lemma u32_nonneg z : 0 <= u32 z.
Proof. unfold u32. apply Z.mod_pos_bound. lia. Qed.

(** ** Loops *)

Lemma for_int_in_range {S : Type} (n : nat) (lo : Z)
    (body : Z -> S -> option S) (s : S) :
  lo + Z.of_nat n <= INT_MAX -> for_int n lo body s = for_upM n lo body s.
Proof.
  revert lo s. induction n as [|n IH]; intros lo s Hn; [done|].
  cbn [for_int for_upM]. destruct (body lo s) as [s'|]; [|done].
  destruct (Z.ltb_spec lo INT_MAX); [|lia]. apply IH. lia.
Qed.

(** a loop that has run to its end has not overflowed its counter *)
Lemma for_int_Some {S : Type} (n : nat) (lo : Z)
    (body : Z -> S -> option S) (s s' : S) :
  for_int n lo body s = Some s' ->
  for_upM n lo body s = Some s' /\ (n = 0%nat \/ lo + Z.of_nat n <= INT_MAX).
Proof.
  revert lo s. induction n as [|n IH]; intros lo s; cbn [for_int for_upM].
  - intros [= <-]. split; [done|by left].
  - destruct (body lo s) as [s1|]; [|done].
    destruct (Z.ltb_spec lo INT_MAX); [|done].
    intros Hrun. apply IH in Hrun as [Hrun Hn]. split; [done|]. right.
    destruct Hn as [->|Hn]; lia.
Qed.

Lemma for_int_None {S : Type} (n : nat) (lo : Z)
    (body : Z -> S -> option S) (s : S) :
  for_upM n lo body s = None -> for_int n lo body s = None.
Proof.
  intros Hup. destruct (for_int n lo body s) as [s'|] eqn:E; [|done].
  apply for_int_Some in E as [E _]. congruence.
Qed.

(** a loop that has to count beyond [INT_MAX] has no result, whatever its
    body does *)
Lemma for_int_overflow {S : Type} (n : nat) (lo : Z)
    (body : Z -> S -> option S) (s : S) :
  lo <= INT_MAX -> INT_MAX < lo + Z.of_nat n -> for_int n lo body s = None.
Proof.
  revert lo s. induction n as [|n IH]; intros lo s Hlo Hn; [lia|].
  cbn [for_int]. destruct (body lo s) as [s'|]; [|done].
  destruct (Z.ltb_spec lo INT_MAX); [|done]. apply IH; lia.
Qed.

Lemma for_upM_push {A : Type} (f : Z -> A) (n : nat) (lo : Z) (acc : list A) :
  for_upM n lo (fun i k => Some (k ++ [f i])) acc
  = Some (acc ++ (f <$> seqZ lo (Z.of_nat n))).
Proof.
  revert lo acc. induction n as [|n IH]; intros lo acc.
  - simpl. by rewrite app_nil_r.
  - cbn [for_upM]. rewrite IH.
    replace (Z.of_nat (S n)) with (Z.succ (Z.of_nat n)) by lia.
    rewrite (seqZ_cons lo) by lia.
    rewrite fmap_cons, <- app_assoc. simpl.
    rewrite Z.pred_succ. by replace (lo + 1) with (Z.succ lo) by lia.
Qed.

Lemma for_upM_push_const {A : Type} (c : A) (n : nat) (lo : Z) (acc : list A) :
  for_upM n lo (fun _ k => Some (k ++ [c])) acc = Some (acc ++ replicate n c).
Proof.
  revert lo acc. induction n as [|n IH]; intros lo acc; simpl.
  - by rewrite app_nil_r.
  - rewrite IH. by rewrite <- app_assoc.
Qed.

(** ** KnotVectorBuilder *)

Section BuilderFacts.
Context {T : Type} `{Scalar T}.

Lemma tooFewCtrlPts_true (degree nCtrlPts : Z) :
  0 <= degree < UINT_MAX -> nCtrlPts < degree + 1 ->
  tooFewCtrlPts degree nCtrlPts = true.
Proof.
  intros Hd Hn. unfold tooFewCtrlPts.
  rewrite u32_small by lia. by apply Z.ltb_lt.
Qed.

Lemma tooFewCtrlPts_false (degree nCtrlPts : Z) :
  0 <= degree -> degree + 1 <= nCtrlPts ->
  tooFewCtrlPts degree nCtrlPts = false.
Proof.
  intros Hd Hn. unfold tooFewCtrlPts.
  apply Z.ltb_ge. pose proof (u32_le (degree + 1)). lia.
Qed.

(** once the guard is passed, no path of the builders returns [false] *)
Lemma makeUniformKnotVector_passed (fuel : nat) (degree nCtrlPts : Z)
    (knots knots' : list T) :
  tooFewCtrlPts degree nCtrlPts = false ->
  makeUniformKnotVector fuel degree nCtrlPts knots <> Returned false knots'.
Proof.
  intros Hg. unfold makeUniformKnotVector. rewrite Hg.
  destruct (nKnotsOf degree nCtrlPts =? INT_MIN); [discriminate|].
  destruct (nKnotsOf degree nCtrlPts <? 0); [discriminate|].
  destruct (uniformLoop _ _ _ _); discriminate.
Qed.

Lemma makeClampedUniformKnotVector_passed (degree nCtrlPts : Z)
    (knots knots' : list T) :
  tooFewCtrlPts degree nCtrlPts = false ->
  makeClampedUniformKnotVector degree nCtrlPts knots <> Returned false knots'.
Proof.
  intros Hg. unfold makeClampedUniformKnotVector. rewrite Hg.
  destruct (nKnotsOf degree nCtrlPts <? 0); [discriminate|].
  cbv zeta. destruct (_ ≫= _); discriminate.
Qed.

(** more fuel does not change the result of a loop that has ended *)
Lemma uniformLoop_more_fuel (fuel extra : nat) (step u : T) (knots r : list T) :
  uniformLoop fuel step u knots = Some r ->
  uniformLoop (fuel + extra) step u knots = Some r.
Proof.
  revert u knots. induction fuel as [|fuel IH]; intros u knots; simpl.
  - discriminate.
  - destruct (s_leb u s_one); [apply IH | done].
Qed.

(** the knot vector of a successful call does not depend on the fuel of
    the model either *)
Lemma makeUniformKnotVector_fuel_irrelevant (fuel1 fuel2 : nat)
    (degree nCtrlPts : Z) (k1 k2 r1 r2 : list T) :
  success (makeUniformKnotVector fuel1 degree nCtrlPts k1) = Some r1 ->
  success (makeUniformKnotVector fuel2 degree nCtrlPts k2) = Some r2 ->
  r1 = r2.
Proof.
  unfold makeUniformKnotVector.
  destruct (tooFewCtrlPts degree nCtrlPts); [done|].
  destruct (nKnotsOf degree nCtrlPts =? INT_MIN); [done|].
  destruct (nKnotsOf degree nCtrlPts <? 0); [done|].
  destruct (uniformLoop fuel1 _ _ _) as [l1|] eqn:E1; [|done].
  destruct (uniformLoop fuel2 _ _ _) as [l2|] eqn:E2; [|done].
  simpl. intros [= <-] [= <-].
  destruct (Nat.le_ge_cases fuel1 fuel2) as [Hle|Hle].
  - apply (uniformLoop_more_fuel _ (fuel2 - fuel1)) in E1.
    replace (fuel1 + (fuel2 - fuel1))%nat with fuel2 in E1 by lia.
    congruence.
  - apply (uniformLoop_more_fuel _ (fuel1 - fuel2)) in E2.
    replace (fuel2 + (fuel1 - fuel2))%nat with fuel1 in E2 by lia.
    congruence.
Qed.

Lemma nKnotsOf_small (degree nCtrlPts : Z) :
  0 <= degree -> 0 <= nCtrlPts -> nCtrlPts + degree + 1 <= INT_MAX ->
  nKnotsOf degree nCtrlPts = nCtrlPts + degree + 1.
Proof.
  intros Hd Hn Hmax. unfold nKnotsOf. unfold INT_MAX in Hmax.
  rewrite u64_small by lia. apply s32_small. unfold INT_MAX. lia.
Qed.

Lemma nIntKnotsOf_small (degree nKnots : Z) :
  0 <= degree -> 2 * degree <= nKnots <= INT_MAX ->
  nIntKnotsOf degree nKnots = nKnots - 2 * degree.
Proof.
  intros Hd Hn. unfold nIntKnotsOf. unfold INT_MAX in Hn.
  rewrite (u32_small nKnots) by (unfold UINT_MAX; lia).
  rewrite (u32_small (2 * degree)) by (unfold UINT_MAX; lia).
  rewrite u32_small by (unfold UINT_MAX; lia).
  apply s32_small. unfold INT_MAX. lia.
Qed.

(** the clamped-uniform vector in closed form, for counts that fit [int] *)
Lemma makeClampedUniformKnotVector_closed_form (degree nCtrlPts : Z)
    (knots : list T) :
  0 <= degree -> degree + 1 <= nCtrlPts ->
  nCtrlPts + degree + 1 <= INT_MAX ->
  let nIntKnots := nCtrlPts + degree + 1 - 2 * degree in
  makeClampedUniformKnotVector degree nCtrlPts knots
  = Returned true
      (replicate (Z.to_nat degree) s_zero
         ++ (interiorKnot nIntKnots <$> seqZ 0 nIntKnots)
         ++ replicate (Z.to_nat degree) s_one).
Proof.
  intros Hd Hn Hmax nIntKnots.
  unfold makeClampedUniformKnotVector.
  rewrite tooFewCtrlPts_false by lia.
  rewrite nKnotsOf_small by lia.
  rewrite nIntKnotsOf_small by lia. fold nIntKnots.
  destruct (Z.ltb_spec (nCtrlPts + degree + 1) 0) as [?|_]; [lia|].
  destruct (Z.ltb_spec 0 nIntKnots) as [Hpos|?]; [|subst nIntKnots; lia].
  cbv zeta. unfold push_back.
  rewrite for_int_in_range, for_upM_push_const by lia.
  cbn [mbind option_bind].
  rewrite for_int_in_range, for_upM_push by lia.
  cbn [mbind option_bind].
  rewrite for_int_in_range, for_upM_push_const by lia.
  rewrite Z2Nat.id by lia. by rewrite <- app_assoc.
Qed.

End BuilderFacts.

(** C9. On success the knot vector a builder produces depends on [degree]
    and [nCtrlPts] only: both builders clear the caller's container before
    they fill it, so two calls that differ in the prior contents of the
    container succeed together and with the same knot vector. *)
Theorem builders_ignore_prior_contents {T : Type} `{Scalar T}
    (fuel : nat) (degree nCtrlPts : Z) (k1 k2 : list T) :
  success (makeUniformKnotVector fuel degree nCtrlPts k1)
  = success (makeUniformKnotVector fuel degree nCtrlPts k2)
  /\ success (makeClampedUniformKnotVector degree nCtrlPts k1)
     = success (makeClampedUniformKnotVector degree nCtrlPts k2).
Proof.
  unfold makeUniformKnotVector, makeClampedUniformKnotVector.
  destruct (tooFewCtrlPts degree nCtrlPts); simpl; auto.
Qed.

(** the successes that C9 speaks of exist: degree 2 and four control
    points in [double], over a container that held other values *)
Example builders_succeed :
  success (makeUniformKnotVector (H:=Binary64.double_Scalar) 8 2 4
             [Binary64.of_int 7; Binary64.of_int 9])
  = Some Scenario.uniform_2_4_double
  /\ success (makeClampedUniformKnotVector (H:=Binary64.double_Scalar) 2 4
                [Binary64.of_int 7; Binary64.of_int 9])
     = Some Scenario.clamped_2_4_double.
Proof. split; vm_compute; reflexivity. Qed.

(** C6, as amended. For every degree below [UINT_MAX] and every
    [nCtrlPts < degree + 1], both builders return [false] and leave the
    caller's knot vector as it was. *)
Theorem builders_reject_too_few {T : Type} `{Scalar T}
    (fuel : nat) (degree nCtrlPts : Z) (knots : list T) :
  0 <= degree < UINT_MAX -> 0 <= nCtrlPts < degree + 1 ->
  makeUniformKnotVector fuel degree nCtrlPts knots = Returned false knots
  /\ makeClampedUniformKnotVector degree nCtrlPts knots = Returned false knots.
Proof.
  intros Hd Hn.
  unfold makeUniformKnotVector, makeClampedUniformKnotVector.
  by rewrite tooFewCtrlPts_true by lia.
Qed.

Lemma builders_reject_too_few_witness :
  makeUniformKnotVector (T:=Q) 8 3 2 [5 # 1]%Q = Returned false [5 # 1]%Q
  /\ makeClampedUniformKnotVector (T:=Q) 3 2 [5 # 1]%Q
     = Returned false [5 # 1]%Q.
Proof.
  apply (builders_reject_too_few (T:=Q) 8 3 2 [5 # 1]%Q);
    unfold UINT_MAX; lia.
Defined.

(** C6, as stated, fails for [degree = UINT_MAX]: [degree + 1] is computed
    as an [unsigned int] and is 0 there, so the guard lets every
    [nCtrlPts] through, 0 included, and neither builder returns [false]. *)
Lemma builders_accept_at_UINT_MAX :
  0 < UINT_MAX + 1
  /\ tooFewCtrlPts UINT_MAX 0 = false
  /\ makeUniformKnotVector (T:=Q) 64 UINT_MAX 0 [] <> Returned false []
  /\ makeClampedUniformKnotVector (T:=Q) UINT_MAX 0 [] <> Returned false [].
Proof.
  split; [done|]. split; [reflexivity|]. split.
  - by apply makeUniformKnotVector_passed.
  - by apply makeClampedUniformKnotVector_passed.
Qed.

(** *** binary64 arithmetic: rounding to nearest even

    What follows is derived from the definitions of [SpecFloat]: the
    digits of a mantissa, the shift that brings it to 53 digits, the
    rounding of what is shifted out, and from there the conversion of an
    integer, the product and the quotient [1.0 / m]. *)

Lemma digits2_pos_size (p : positive) : digits2_pos p = Pos.size p.
Proof. induction p; simpl; congruence. Qed.

Lemma Zdigits2_bounds (p : positive) :
  2 ^ (Zdigits2 (Zpos p) - 1) <= Zpos p < 2 ^ Zdigits2 (Zpos p).
Proof.
  unfold Zdigits2. rewrite digits2_pos_size.
  pose proof (Pos.size_gt p) as Hgt. pose proof (Pos.size_le p) as Hle.
  assert (E : Z.pos (2 ^ Pos.size p) = 2 ^ Z.pos (Pos.size p))
    by apply Pos2Z.inj_pow.
  split.
  - assert (2 * 2 ^ (Z.pos (Pos.size p) - 1) = 2 ^ Z.pos (Pos.size p)).
    { rewrite <- Z.pow_succ_r by lia. f_equal. lia. }
    assert (Z.pos (2 ^ Pos.size p) <= Z.pos p~0) by exact Hle. lia.
  - rewrite <- E. exact Hgt.
Qed.

Lemma Zdigits2_unique (p : positive) (d : Z) :
  2 ^ (d - 1) <= Zpos p < 2 ^ d -> Zdigits2 (Zpos p) = d.
Proof.
  intros [Hlo Hhi]. pose proof (Zdigits2_bounds p) as [Hlo' Hhi'].
  assert (Hd : 0 < Zdigits2 (Z.pos p)) by (simpl; lia).
  assert (0 < d).
  { destruct (Z.lt_ge_cases 0 d); [done|].
    destruct (Z.eq_dec d 0) as [->|Hne]; [simpl in Hhi; lia|].
    rewrite Z.pow_neg_r in Hhi by lia. lia. }
  destruct (Z.lt_trichotomy (Zdigits2 (Z.pos p)) d) as [Hlt|[->|Hgt]]; [|done|].
  - assert (2 ^ Zdigits2 (Z.pos p) <= 2 ^ (d - 1))
      by (apply Z.pow_le_mono_r; lia). lia.
  - assert (2 ^ d <= 2 ^ (Zdigits2 (Z.pos p) - 1))
      by (apply Z.pow_le_mono_r; lia). lia.
Qed.

Lemma iter_pos_nat {A : Type} (f : A -> A) (p : positive) (x : A) :
  SpecFloat.iter_pos f p x = Nat.iter (Pos.to_nat p) f x.
Proof.
  revert x. induction p as [p IH|p IH|]; intros x; cbn [SpecFloat.iter_pos].
  - rewrite !IH. rewrite Pos2Nat.inj_xI.
    replace (S (2 * Pos.to_nat p)) with (Pos.to_nat p + (Pos.to_nat p + 1))%nat
      by lia.
    rewrite !Nat.iter_add. simpl. done.
  - rewrite !IH. rewrite Pos2Nat.inj_xO.
    replace (2 * Pos.to_nat p)%nat with (Pos.to_nat p + Pos.to_nat p)%nat
      by lia.
    by rewrite Nat.iter_add.
  - done.
Qed.

Lemma shr_1_spec (m D rho : Z) (r s : bool) :
  0 <= m -> located D rho r s ->
  exists r' s' : bool,
    shr_1 {| shr_m := m; shr_r := r; shr_s := s |}
    = {| shr_m := m / 2; shr_r := r'; shr_s := s' |}
    /\ located (2 * D) (m mod 2 * D + rho) r' s'.
Proof.
  intros Hm (Hrho & Hr & Hs).
  assert (Hor : r || s = true <-> rho <> 0).
  { rewrite orb_true_iff, Hr, Hs. lia. }
  destruct m as [|p|p]; [| |lia].
  - exists false, (r || s). split; [done|].
    change (0 mod 2) with 0. unfold located. rewrite Hor.
    split; [lia|]. split; [split; [done|lia]|lia].
  - assert (Hdm : Z.pos p = 2 * (Z.pos p / 2) + Z.pos p mod 2
                  /\ 0 <= Z.pos p mod 2 < 2).
    { split; [apply Z.div_mod; lia|apply Z.mod_pos_bound; lia]. }
    destruct p as [p|p|].
    + exists true, (r || s).
      assert (E : Z.pos p~1 / 2 = Z.pos p /\ Z.pos p~1 mod 2 = 1)
        by (rewrite Pos2Z.inj_xI in *; lia).
      destruct E as [-> ->]. split; [done|].
      unfold located. rewrite Hor. split; [lia|]. split; [split; [lia|done]|lia].
    + exists false, (r || s).
      assert (E : Z.pos p~0 / 2 = Z.pos p /\ Z.pos p~0 mod 2 = 0)
        by (rewrite Pos2Z.inj_xO in *; lia).
      destruct E as [-> ->]. split; [done|].
      unfold located. rewrite Hor. split; [lia|]. split; [split; [done|lia]|lia].
    + exists true, (r || s). split; [done|].
      change (1 mod 2) with 1. unfold located. rewrite Hor.
      split; [lia|]. split; [split; [lia|done]|lia].
Qed.

Lemma shr_iter (n : nat) (m D rho : Z) (r s : bool) :
  0 <= m -> 0 < D -> located D rho r s ->
  exists (m' rho' : Z) (r' s' : bool),
    Nat.iter n shr_1 {| shr_m := m; shr_r := r; shr_s := s |}
    = {| shr_m := m'; shr_r := r'; shr_s := s' |}
    /\ 0 <= m'
    /\ located (2 ^ Z.of_nat n * D) rho' r' s'
    /\ m' * (2 ^ Z.of_nat n * D) + rho' = m * D + rho.
Proof.
  intros Hm HD Hloc. induction n as [|n IH].
  - exists m, rho, r, s. simpl. rewrite Z.mul_1_l. repeat split; try done.
    all: destruct Hloc as (? & ? & ?); try tauto; lia.
  - destruct IH as (m' & rho' & r' & s' & Hit & Hm' & Hloc' & Heq).
    rewrite Nat.iter_succ, Hit.
    destruct (shr_1_spec m' _ rho' r' s' Hm' Hloc') as (r'' & s'' & -> & Hloc'').
    exists (m' / 2), (m' mod 2 * (2 ^ Z.of_nat n * D) + rho'), r'', s''.
    split; [done|]. split; [apply Z.div_pos; lia|].
    replace (2 ^ Z.of_nat (S n)) with (2 * 2 ^ Z.of_nat n)
      by (rewrite Nat2Z.inj_succ, Z.pow_succ_r by lia; done).
    rewrite <- Z.mul_assoc. split; [done|].
    pose proof (Z.div_mod m' 2 ltac:(lia)). nia.
Qed.

Lemma rne_spec (m D rho : Z) (r s : bool) :
  0 <= m -> located D rho r s ->
  let q := round_nearest_even m
             (loc_of_shr_record {| shr_m := m; shr_r := r; shr_s := s |}) in
  (q = m \/ q = m + 1)
  /\ 2 * Z.abs (q * D - (m * D + rho)) <= D
  /\ (rho = 0 -> q = m)
  /\ (2 * Z.abs (q * D - (m * D + rho)) = D -> Z.even q = true).
Proof.
  intros Hm (Hrho & Hr & Hs). simpl.
  destruct r, s; simpl.
  - assert (D <= 2 * rho) by tauto. assert (2 * rho <> D) by tauto.
    split; [by right|]. repeat split; lia.
  - assert (D <= 2 * rho) by tauto.
    assert (2 * rho = D).
    { destruct (Z.eq_dec (2 * rho) D); [done|].
      assert (false = true) by (apply Hs; lia). done. }
    destruct (Z.even m) eqn:Ev.
    + split; [by left|]. repeat split; try done; lia.
    + split; [by right|]. repeat split; try lia.
      intros _. rewrite Z.even_add, Ev. done.
  - assert (~ D <= 2 * rho) by (intros ?; assert (false = true) by tauto; done).
    split; [by left|]. repeat split; lia.
  - assert (rho = 0).
    { destruct (Z.eq_dec rho 0); [done|].
      assert (~ D <= 2 * rho)
        by (intros ?; assert (false = true) by tauto; done).
      assert (false = true) by (apply Hs; lia). done. }
    split; [by left|]. repeat split; lia.
Qed.

Lemma shr_record_of_loc_bits (m : Z) (l : location) :
  shr_record_of_loc m l = {| shr_m := m; shr_r := loc_r l; shr_s := loc_s l |}.
Proof. by destruct l as [|[]]. Qed.

Lemma located_exact (D : Z) : 0 < D -> located D 0 (loc_r loc_Exact) (loc_s loc_Exact).
Proof. intros HD. unfold located. simpl. repeat split; try done; lia. Qed.

Lemma fexp_normal (e : Z) : -1021 <= e -> fexp 53 1024 e = e - 53.
Proof. intros He. unfold fexp, emin. lia. Qed.

Lemma pow2_split (a b : Z) : 0 <= a -> 0 <= b -> 2 ^ (a + b) = 2 ^ a * 2 ^ b.
Proof. intros. by apply Z.pow_add_r. Qed.

Lemma shr_fexp_spec (mx : positive) (ex : Z) (lx : location) (D rho : Z) :
  0 < D -> located D rho (loc_r lx) (loc_s lx) ->
  53 <= Zdigits2 (Zpos mx) -> -1021 <= Zdigits2 (Zpos mx) + ex ->
  exists (m' rho' : Z) (r' s' : bool),
    shr_fexp 53 1024 (Zpos mx) ex lx
    = ({| shr_m := m'; shr_r := r'; shr_s := s' |},
       ex + (Zdigits2 (Zpos mx) - 53))
    /\ 2 ^ 52 <= m' < 2 ^ 53
    /\ located (2 ^ (Zdigits2 (Zpos mx) - 53) * D) rho' r' s'
    /\ m' * (2 ^ (Zdigits2 (Zpos mx) - 53) * D) + rho' = Zpos mx * D + rho
    /\ (Zdigits2 (Zpos mx) = 53 -> m' = Zpos mx /\ rho' = rho).
Proof.
  intros HD Hloc Hd He.
  pose proof (Zdigits2_bounds mx) as [Hlo Hhi].
  set (d := Zdigits2 (Z.pos mx)) in *.
  unfold shr_fexp. fold d. rewrite fexp_normal by lia.
  rewrite shr_record_of_loc_bits.
  replace (d + ex - 53 - ex) with (d - 53) by lia.
  assert (Hbound : forall m' rho' k : Z,
            0 <= k -> d = 53 + k -> 0 <= rho' < 2 ^ k * D ->
            m' * (2 ^ k * D) + rho' = Z.pos mx * D + rho ->
            2 ^ 52 <= m' < 2 ^ 53).
  { intros m' rho' k Hk Hdk Hrho' Heq.
    destruct Hloc as (Hrho & _).
    assert (E1 : 2 ^ d = 2 ^ 53 * 2 ^ k) by (rewrite Hdk; by apply pow2_split).
    assert (E2 : 2 ^ (d - 1) = 2 ^ 52 * 2 ^ k).
    { replace (d - 1) with (52 + k) by lia. by apply pow2_split. }
    assert (Hp : 0 < 2 ^ k) by (apply Z.pow_pos_nonneg; lia).
    rewrite E1 in Hhi. rewrite E2 in Hlo.
    set (p := 2 ^ k) in *. clearbody p. nia. }
  destruct (d - 53) as [|k|k] eqn:Ek; [| |lia].
  - exists (Z.pos mx), rho, (loc_r lx), (loc_s lx). cbn [shr].
    rewrite Z.add_0_r. split; [done|]. change (2 ^ 0) with 1.
    rewrite Z.mul_1_l.
    split; [apply (Hbound _ rho 0); try lia; change (2 ^ 0) with 1;
            destruct Hloc; lia|].
    split; [done|]. split; done.
  - cbn [shr]. rewrite iter_pos_nat.
    destruct (shr_iter (Pos.to_nat k) (Z.pos mx) D rho (loc_r lx) (loc_s lx))
      as (m' & rho' & r' & s' & Hit & Hm' & Hloc' & Heq); [lia|done|done|].
    rewrite positive_nat_Z in Hloc', Heq.
    exists m', rho', r', s'. rewrite Hit. split; [done|].
    split; [apply (Hbound _ rho' (Z.pos k)); try lia; by destruct Hloc'|].
    split; [done|]. split; [done|]. lia.
Qed.

Lemma Zdigits2_53 (q : Z) : 2 ^ 52 <= q < 2 ^ 53 -> Zdigits2 q = 53.
Proof.
  intros Hq. destruct q as [|p|p]; [lia| |lia]. by apply Zdigits2_unique.
Qed.

(** rounding to nearest even of the value [(mx + rho / D) * 2^ex] in the
    normal range: the result is within half a unit of its last place of
    the value, and has an even mantissa when it is exactly half a unit
    away *)
Lemma round_spec (mx : positive) (ex : Z) (lx : location) (D rho : Z) :
  0 < D -> located D rho (loc_r lx) (loc_s lx) ->
  53 <= Zdigits2 (Zpos mx) -> -1021 <= Zdigits2 (Zpos mx) + ex ->
  Zdigits2 (Zpos mx) + ex <= 1023 ->
  exists (q : positive) (e' : Z),
    binary_round_aux 53 1024 false (Zpos mx) ex lx = S754_finite false q e'
    /\ 2 ^ 52 <= Zpos q < 2 ^ 53
    /\ (e' = ex + (Zdigits2 (Zpos mx) - 53)
        \/ e' = ex + (Zdigits2 (Zpos mx) - 53) + 1)
    /\ 2 * Z.abs (Zpos q * (2 ^ (e' - ex) * D) - (Zpos mx * D + rho))
       <= 2 ^ (e' - ex) * D
    /\ (2 * Z.abs (Zpos q * (2 ^ (e' - ex) * D) - (Zpos mx * D + rho))
        = 2 ^ (e' - ex) * D -> Z.even (Zpos q) = true)
    /\ (rho = 0 -> Zdigits2 (Zpos mx) = 53 -> q = mx /\ e' = ex).
Proof.
  intros HD Hloc Hd He Hmax.
  destruct (shr_fexp_spec mx ex lx D rho HD Hloc Hd He)
    as (m' & rho' & r' & s' & Hshr & Hm' & Hloc' & Heq & Hex).
  set (k := Zdigits2 (Z.pos mx) - 53) in *.
  assert (Hp : 0 < 2 ^ k) by (apply Z.pow_pos_nonneg; lia).
  unfold binary_round_aux. rewrite Hshr. cbn [shr_m].
  pose proof (rne_spec m' _ rho' r' s' ltac:(lia) Hloc')
    as (Hq0 & Herr & Hq0x & Htie).
  set (q0 := round_nearest_even m' _) in *. clearbody q0.
  destruct (Z.eq_dec q0 (2 ^ 53)) as [E53|Hne].
  - (* the mantissa has been rounded up to 2^53 *)
    change (2 ^ 53) with 9007199254740992 in E53. subst q0. unfold shr_fexp.
    change (Zdigits2 9007199254740992) with 54. rewrite fexp_normal by lia.
    replace (54 + (ex + k) - 53 - (ex + k)) with 1 by lia.
    cbn. change (1024 - 53) with 971.
    destruct (Z.leb_spec (ex + k + 1) 971); [|lia].
    exists 4503599627370496%positive, (ex + k + 1).
    split; [done|]. split; [done|]. split; [by right|]. split; [|split].
    + replace (ex + k + 1 - ex) with (k + 1) by lia.
      rewrite Z.pow_add_r by lia. change (2 ^ 1) with 2. rewrite <- Heq.
      change (2 ^ 53) with 9007199254740992 in *.
      set (p := 2 ^ k) in *. clearbody p. nia.
    + done.
    + intros Hrho H53. exfalso. destruct (Hex H53) as [-> ->].
      specialize (Hq0x Hrho). lia.
  - assert (Hq : 2 ^ 52 <= q0 < 2 ^ 53) by lia.
    destruct q0 as [|q|q]; [lia| |lia].
    unfold shr_fexp. rewrite (Zdigits2_53 (Z.pos q)) by done.
    rewrite fexp_normal by lia.
    replace (53 + (ex + k) - 53 - (ex + k)) with 0 by lia.
    cbn. change (1024 - 53) with 971.
    destruct (Z.leb_spec (ex + k) 971); [|lia].
    exists q, (ex + k). split; [done|]. split; [done|]. split; [by left|].
    replace (ex + k - ex) with k by lia. rewrite <- Heq.
    split; [done|]. split; [done|].
    intros Hrho H53. destruct (Hex H53) as [-> ->].
    specialize (Hq0x Hrho). split; [congruence|].
    subst k. unfold Zdigits2. lia.
Qed.

Lemma pos_iter_xO (p n : positive) :
  Z.pos (Pos.iter xO p n) = Z.pos p * 2 ^ Z.pos n.
Proof.
  change (Pos.iter xO p n) with (shift_pos n p).
  rewrite shift_pos_correct. rewrite Zpower_pos_nat, Zpower_nat_Z.
  rewrite positive_nat_Z. lia.
Qed.

(** the conversion of an integer below 2^53 is exact *)
Lemma of_int_spec (i : Z) :
  1 <= i < 2 ^ 53 ->
  exists (mi : positive) (t : Z),
    binary_normalize 53 1024 i 0 false = S754_finite false mi (- t)
    /\ 0 <= t <= 52 /\ Z.pos mi = i * 2 ^ t
    /\ 2 ^ 52 <= Z.pos mi < 2 ^ 53.
Proof.
  intros Hi. destruct i as [|p|p]; [lia| |lia].
  cbn [binary_normalize]. unfold binary_round.
  pose proof (Zdigits2_bounds p) as [Hlo Hhi].
  change (Zdigits2 (Z.pos p)) with (Z.pos (digits2_pos p)) in *.
  set (d := Z.pos (digits2_pos p)) in *.
  assert (Hd : 1 <= d <= 53).
  { split; [subst d; lia|].
    destruct (Z.le_gt_cases d 53); [done|].
    assert (2 ^ 53 <= 2 ^ (d - 1)) by (apply Z.pow_le_mono_r; lia). lia. }
  rewrite Z.add_0_r, fexp_normal by lia.
  unfold shl_align. rewrite Z.sub_0_r.
  destruct (d - 53) as [|t|t] eqn:Et; [|lia|].
  - assert (E : d = 53) by lia.
    destruct (round_spec p 0 loc_Exact 1 0)
      as (q & e' & Hr & Hq & _ & _ & _ & Hx);
      [lia|by apply located_exact|
       change (Zdigits2 (Z.pos p)) with d; lia..|].
    destruct Hx as [-> ->]; [done|by change (Zdigits2 (Z.pos p)) with d|].
    exists p, 0. rewrite Hr. split; [done|]. split; [lia|].
    split; [change (2 ^ 0) with 1; lia|].
    rewrite E in Hlo, Hhi. done.
  - assert (Hmz : Z.pos (Pos.iter xO p t) = Z.pos p * 2 ^ Z.pos t)
      by apply pos_iter_xO.
    assert (Hb : 2 ^ 52 <= Z.pos (Pos.iter xO p t) < 2 ^ 53).
    { rewrite Hmz.
      assert (E1 : 2 ^ 53 = 2 ^ d * 2 ^ Z.pos t).
      { rewrite <- Z.pow_add_r by lia. f_equal. lia. }
      assert (E2 : 2 ^ 52 = 2 ^ (d - 1) * 2 ^ Z.pos t).
      { rewrite <- Z.pow_add_r by lia. f_equal. lia. }
      rewrite E1, E2.
      assert (0 < 2 ^ Z.pos t) by (apply Z.pow_pos_nonneg; lia). nia. }
    assert (Hdz : Zdigits2 (Z.pos (Pos.iter xO p t)) = 53)
      by (by apply Zdigits2_53).
    destruct (round_spec (Pos.iter xO p t) (Z.neg t) loc_Exact 1 0)
      as (q & e' & Hr & Hq & _ & _ & _ & Hx);
      [lia|by apply located_exact|rewrite Hdz; lia..|].
    destruct Hx as [-> ->]; [done|done|].
    exists (Pos.iter xO p t), (Z.pos t). rewrite Hr.
    split; [done|]. split; [lia|]. split; done.
Qed.

Lemma Zdigits2_product (a b : positive) :
  2 ^ 52 <= Z.pos a < 2 ^ 53 -> 2 ^ 52 <= Z.pos b < 2 ^ 53 ->
  105 <= Zdigits2 (Z.pos (a * b)) <= 106.
Proof.
  intros Ha Hb. pose proof (Zdigits2_bounds (a * b)) as [Hlo Hhi].
  set (d := Zdigits2 (Z.pos (a * b))) in *. clearbody d.
  rewrite Pos2Z.inj_mul in Hlo, Hhi.
  assert (H1 : 2 ^ 104 <= Z.pos a * Z.pos b) by (change (2 ^ 104) with (2 ^ 52 * 2 ^ 52); nia).
  assert (H2 : Z.pos a * Z.pos b < 2 ^ 106) by (change (2 ^ 106) with (2 ^ 53 * 2 ^ 53); nia).
  split.
  - destruct (Z.le_gt_cases 105 d); [done|].
    assert (2 ^ d <= 2 ^ 104).
    { destruct (Z.lt_ge_cases d 0).
      - rewrite Z.pow_neg_r by lia. lia.
      - apply Z.pow_le_mono_r; lia. }
    lia.
  - destruct (Z.le_gt_cases d 106); [done|].
    assert (2 ^ 106 <= 2 ^ (d - 1)) by (apply Z.pow_le_mono_r; lia). lia.
Qed.

(** the product of two [double]s in the normal range *)
Lemma mul_spec (mi ms : positive) (ei es : Z) :
  2 ^ 52 <= Z.pos mi < 2 ^ 53 -> 2 ^ 52 <= Z.pos ms < 2 ^ 53 ->
  -1100 <= ei + es <= 900 ->
  exists (q : positive) (c : Z),
    SFmul 53 1024 (S754_finite false mi ei) (S754_finite false ms es)
    = S754_finite false q (ei + es + c)
    /\ 2 ^ 52 <= Z.pos q < 2 ^ 53 /\ 52 <= c <= 54
    /\ 2 * Z.abs (Z.pos q * 2 ^ c - Z.pos mi * Z.pos ms) <= 2 ^ c
    /\ (2 * Z.abs (Z.pos q * 2 ^ c - Z.pos mi * Z.pos ms) = 2 ^ c
        -> Z.even (Z.pos q) = true).
Proof.
  intros Hmi Hms He. cbn [SFmul xorb].
  pose proof (Zdigits2_product mi ms Hmi Hms) as Hd.
  destruct (round_spec (mi * ms) (ei + es) loc_Exact 1 0)
    as (q & e' & Hr & Hq & He' & Herr & Htie & _);
    [lia|by apply located_exact|lia..|].
  exists q, (e' - (ei + es)). rewrite Hr.
  split; [f_equal; lia|]. split; [done|]. split; [lia|].
  rewrite !Z.mul_1_r, Z.add_0_r, Pos2Z.inj_mul in Herr, Htie.
  split; done.
Qed.

Lemma new_location_located (D r : Z) :
  0 < D -> 0 <= r < D ->
  located D r (loc_r (new_location D r)) (loc_s (new_location D r)).
Proof.
  intros HD Hr. unfold new_location, new_location_even, new_location_odd.
  destruct (Z.even D) eqn:Ev.
  - destruct (Z.eqb_spec r 0) as [->|Hne].
    + by apply located_exact.
    + change (Z.pos 2 * r) with (2 * r).
      destruct (Z.compare_spec (2 * r) D); unfold located; simpl;
        intuition (try done; try lia).
  - assert (Hodd : exists k, D = 2 * k + 1).
    { apply Z.odd_spec. by rewrite <- Z.negb_even, Ev. }
    destruct Hodd as [k ->].
    destruct (Z.eqb_spec r 0) as [->|Hne].
    + by apply located_exact.
    + change (Z.pos 2 * r + Z.pos 1) with (2 * r + 1).
      destruct (Z.compare_spec (2 * r + 1) (2 * k + 1)); unfold located; simpl;
        intuition (try done; try lia).
Qed.

(** the quotient [1.0 / y] for a normal [double] [y] *)
Lemma div_one_spec (my : positive) (ey : Z) :
  2 ^ 52 <= Z.pos my < 2 ^ 53 -> -900 <= ey <= 900 ->
  exists (ms : positive) (c : Z),
    SFdiv 53 1024 (S754_finite false 4503599627370496 (-52))
      (S754_finite false my ey)
    = S754_finite false ms (-105 - ey + c)
    /\ 2 ^ 52 <= Z.pos ms < 2 ^ 53 /\ 0 <= c <= 2
    /\ 2 * Z.abs (Z.pos ms * (2 ^ c * Z.pos my) - 2 ^ 105) <= 2 ^ c * Z.pos my.
Proof.
  intros Hmy Hey. cbn [SFdiv xorb]. unfold SFdiv_core_binary.
  change (Zdigits2 (Z.pos 4503599627370496)) with 53.
  rewrite (Zdigits2_53 (Z.pos my)) by done.
  rewrite fexp_normal by lia.
  rewrite Z.min_l by lia.
  replace (-52 - ey - (53 + -52 - (53 + ey) - 53)) with 53 by lia.
  change (Z.shiftl (Z.pos 4503599627370496) 53) with (2 ^ 105).
  pose proof (Z_div_mod (2 ^ 105) (Z.pos my) ltac:(lia)) as Hdm.
  destruct (Z.div_eucl (2 ^ 105) (Z.pos my)) as [q r].
  destruct Hdm as [Hdm Hr].
  change (2 ^ 52) with 4503599627370496 in *.
  change (2 ^ 53) with 9007199254740992 in *.
  assert (Hq : 4503599627370496 <= q <= 9007199254740992).
  { change (2 ^ 105) with (4503599627370496 * 9007199254740992) in Hdm. nia. }
  destruct q as [|q|q]; [lia| |lia].
  pose proof (Zdigits2_bounds q) as [Hlo Hhi].
  set (d := Zdigits2 (Z.pos q)) in *.
  assert (Hd : 53 <= d <= 54).
  { split.
    - destruct (Z.le_gt_cases 53 d); [done|].
      assert (2 ^ d <= 2 ^ 52).
      { destruct (Z.lt_ge_cases d 0).
        - rewrite Z.pow_neg_r by lia. lia.
        - apply Z.pow_le_mono_r; lia. }
      change (2 ^ 52) with 4503599627370496 in *. lia.
    - destruct (Z.le_gt_cases d 54); [done|].
      assert (2 ^ 54 <= 2 ^ (d - 1)) by (apply Z.pow_le_mono_r; lia).
      change (2 ^ 54) with 18014398509481984 in *. lia. }
  destruct (round_spec q (53 + -52 - (53 + ey) - 53)
              (new_location (Z.pos my) r) (Z.pos my) r)
    as (ms & e' & Hres & Hms & He' & Herr & _ & _);
    [lia|by apply new_location_located|fold d; lia..|].
  fold d in He'.
  exists ms, (e' - (-105 - ey)). rewrite Hres.
  split; [f_equal; lia|].
  change (2 ^ 52) with 4503599627370496.
  change (2 ^ 53) with 9007199254740992.
  split; [done|]. split; [lia|].
  replace (e' - (53 + -52 - (53 + ey) - 53)) with (e' - (-105 - ey))
    in Herr by lia.
  rewrite Hdm. rewrite (Z.mul_comm (Z.pos my) (Z.pos q)). done.
Qed.

Lemma of_int_1 :
  binary_normalize 53 1024 1 0 false = S754_finite false 4503599627370496 (-52).
Proof. reflexivity. Qed.

(** the step [1.0 / m] for an integer [m] *)
Lemma step_spec (m : Z) :
  1 <= m < 2 ^ 53 ->
  exists (ms : positive) (es : Z),
    SFdiv 53 1024 (binary_normalize 53 1024 1 0 false)
      (binary_normalize 53 1024 m 0 false)
    = S754_finite false ms es
    /\ 2 ^ 52 <= Z.pos ms < 2 ^ 53 /\ -105 <= es <= -51
    /\ 2 * Z.abs (Z.pos ms * (m * 2 ^ (es + 105)) - 2 ^ 105)
       <= m * 2 ^ (es + 105).
Proof.
  intros Hm. rewrite of_int_1.
  destruct (of_int_spec m Hm) as (my & t & -> & Ht & Emy & Hmy).
  destruct (div_one_spec my (- t) Hmy ltac:(lia))
    as (ms & c & -> & Hms & Hc & Herr).
  exists ms, (-105 - - t + c). split; [done|]. split; [done|].
  split; [lia|].
  replace (-105 - - t + c + 105) with (c + t) by lia.
  rewrite Z.pow_add_r by lia. rewrite Emy in Herr.
  replace (m * (2 ^ c * 2 ^ t)) with (2 ^ c * (m * 2 ^ t)) by ring. done.
Qed.

(** the product [i * step] for an integer [i] *)
Lemma knot_spec (i : Z) (ms : positive) (es : Z) :
  1 <= i < 2 ^ 53 -> 2 ^ 52 <= Z.pos ms < 2 ^ 53 -> -1000 <= es <= 800 ->
  exists (q : positive) (E : Z),
    SFmul 53 1024 (binary_normalize 53 1024 i 0 false)
      (S754_finite false ms es)
    = S754_finite false q (es + E)
    /\ 2 ^ 52 <= Z.pos q < 2 ^ 53 /\ 0 <= E
    /\ 2 * Z.abs (Z.pos q * 2 ^ E - i * Z.pos ms) <= 2 ^ E
    /\ (2 * Z.abs (Z.pos q * 2 ^ E - i * Z.pos ms) = 2 ^ E
        -> Z.even (Z.pos q) = true).
Proof.
  intros Hi Hms Hes.
  destruct (of_int_spec i Hi) as (mi & t & -> & Ht & Emi & Hmi).
  destruct (mul_spec mi ms (- t) es Hmi Hms ltac:(lia))
    as (q & c & -> & Hq & Hc & Herr & Htie).
  exists q, (c - t). split; [f_equal; lia|]. split; [done|]. split; [lia|].
  assert (Hp : 0 < 2 ^ t) by (apply Z.pow_pos_nonneg; lia).
  assert (E : 2 ^ c = 2 ^ (c - t) * 2 ^ t).
  { rewrite <- Z.pow_add_r by lia. f_equal. lia. }
  rewrite E, Emi in Herr, Htie.
  replace (Z.pos q * (2 ^ (c - t) * 2 ^ t) - i * 2 ^ t * Z.pos ms)
    with ((Z.pos q * 2 ^ (c - t) - i * Z.pos ms) * 2 ^ t) in Herr, Htie by ring.
  rewrite Z.abs_mul, (Z.abs_eq (2 ^ t)) in Herr, Htie by lia.
  split; [nia|]. intros Heq. apply Htie. nia.
Qed.

Lemma SFltb_finite (q1 q2 : positive) (e1 e2 : Z) :
  SFltb (S754_finite false q1 e1) (S754_finite false q2 e2) = true
  <-> e1 < e2 \/ (e1 = e2 /\ Z.pos q1 < Z.pos q2).
Proof.
  unfold SFltb, SFcompare.
  change (Pos.compare_cont Eq q1 q2) with (Pos.compare q1 q2).
  destruct (Z.compare_spec e1 e2).
  - destruct (Pos.compare_spec q1 q2); split; try done; lia.
  - split; [lia|done].
  - split; [done|lia].
Qed.

Lemma SFleb_finite (q1 q2 : positive) (e1 e2 : Z) :
  SFleb (S754_finite false q1 e1) (S754_finite false q2 e2) = true
  <-> e1 < e2 \/ (e1 = e2 /\ Z.pos q1 <= Z.pos q2).
Proof.
  unfold SFleb, SFcompare.
  change (Pos.compare_cont Eq q1 q2) with (Pos.compare q1 q2).
  destruct (Z.compare_spec e1 e2).
  - destruct (Pos.compare_spec q1 q2); split; try done; lia.
  - split; [lia|done].
  - split; [done|lia].
Qed.

(** two values that are at least 2^52 apart, in the unit of the mantissa
    of the step, are rounded to different [double]s, in the same order *)
Lemma key_lt (q1 q2 E1 E2 N1 N2 : Z) :
  2 ^ 52 <= q1 < 2 ^ 53 -> 2 ^ 52 <= q2 < 2 ^ 53 -> 0 <= E1 -> 0 <= E2 ->
  2 * Z.abs (q1 * 2 ^ E1 - N1) <= 2 ^ E1 ->
  2 * Z.abs (q2 * 2 ^ E2 - N2) <= 2 ^ E2 ->
  N1 + 2 ^ 52 <= N2 -> N2 < 2 ^ 84 ->
  E1 < E2 \/ (E1 = E2 /\ q1 < q2).
Proof.
  intros Hq1 Hq2 HE1 HE2 H1 H2 HN Hmax.
  assert (Hp1 : 0 < 2 ^ E1) by (apply Z.pow_pos_nonneg; lia).
  assert (Hp2 : 0 < 2 ^ E2) by (apply Z.pow_pos_nonneg; lia).
  change (2 ^ 52) with 4503599627370496 in *.
  change (2 ^ 53) with 9007199254740992 in *.
  change (2 ^ 84) with 19342813113834066795298816 in *.
  assert (Hb2 : 2 ^ E2 < 2 ^ 33).
  { change (2 ^ 33) with 8589934592. set (p := 2 ^ E2) in *. clearbody p. nia. }
  destruct (Z.lt_trichotomy E1 E2) as [Hlt|[Heq|Hgt]]; [by left| |].
  - right. split; [done|]. subst E2.
    destruct (Z.lt_ge_cases q1 q2); [done|]. exfalso.
    change (2 ^ 33) with 8589934592 in *.
    set (p := 2 ^ E1) in *. clearbody p. nia.
  - exfalso.
    assert (E : 2 ^ E1 = 2 ^ E2 * 2 ^ (E1 - E2)).
    { rewrite <- Z.pow_add_r by lia. f_equal. lia. }
    assert (Hw : 2 <= 2 ^ (E1 - E2)).
    { change 2 with (2 ^ 1) at 1. apply Z.pow_le_mono_r; lia. }
    rewrite E in *. change (2 ^ 33) with 8589934592 in *.
    set (p := 2 ^ E2) in *. set (w := 2 ^ (E1 - E2)) in *.
    clearbody p w. nia.
Qed.

(** no multiple [i * step] with [i <= m] of the step [1.0 / m] is rounded
    above 1.0 *)
Lemma key_le_one (q E N ms m es : Z) :
  2 ^ 52 <= q < 2 ^ 53 -> 0 <= E ->
  2 * Z.abs (q * 2 ^ E - N) <= 2 ^ E ->
  (2 * Z.abs (q * 2 ^ E - N) = 2 ^ E -> Z.even q = true) ->
  2 ^ 52 <= ms < 2 ^ 53 -> 1 <= m -> -105 <= es ->
  2 * Z.abs (ms * (m * 2 ^ (es + 105)) - 2 ^ 105) <= m * 2 ^ (es + 105) ->
  0 <= N <= m * ms ->
  es + E < -52 \/ (es + E = -52 /\ q <= 2 ^ 52).
Proof.
  intros Hq HE Herr Htie Hms Hm Hes Hdiv HN.
  assert (Ha : 0 < 2 ^ E) by (apply Z.pow_pos_nonneg; lia).
  assert (HA : 0 < 2 ^ (es + 105)) by (apply Z.pow_pos_nonneg; lia).
  assert (HW : 2 ^ E * 2 ^ (es + 105) = 2 ^ (E + es + 105)).
  { rewrite <- Z.pow_add_r by lia. f_equal. lia. }
  change (2 ^ 52) with 4503599627370496 in *.
  change (2 ^ 53) with 9007199254740992 in *.
  change (2 ^ 105) with 40564819207303340847894502572032 in *.
  set (a := 2 ^ E) in *. set (A := 2 ^ (es + 105)) in *.
  assert (HmA : m * A <= 9007199254740993) by (clearbody a A; nia).
  assert (HNA : N * A <= 40564819207303345351494129942528).
  { assert (N * A <= m * ms * A) by (clearbody a A; nia).
    clearbody a A. nia. }
  destruct (Z.lt_trichotomy (E + es + 105) 53) as [Hlt|[Heq|Hgt]];
    [left; lia| |].
  - right. split; [lia|].
    destruct (Z.le_gt_cases q 4503599627370496) as [|Hq']; [done|]. exfalso.
    rewrite Heq in HW. change (2 ^ 53) with 9007199254740992 in HW.
    assert (HqaA : q * a * A = q * 9007199254740992)
      by (rewrite <- HW; ring).
    assert (Hs : 2 * (q * a * A - N * A) <= a * A).
    { replace (q * a * A - N * A) with ((q * a - N) * A) by ring.
      clearbody a A. nia. }
    assert (HNAeq : N * A = 40564819207303345351494129942528) by lia.
    assert (Hqeq : q = 4503599627370497) by lia.
    assert (Ht : 2 * Z.abs (q * a - N) = a).
    { assert (2 * (q * a - N) * A = a * A) by lia.
      assert (2 * (q * a - N) = a) by (clearbody a A; nia). lia. }
    specialize (Htie Ht). subst q. done.
  - exfalso.
    assert (E54 : 2 ^ (E + es + 105) = 2 ^ 54 * 2 ^ (E + es + 105 - 54)).
    { rewrite <- Z.pow_add_r by lia. f_equal. lia. }
    assert (Hw : 0 < 2 ^ (E + es + 105 - 54))
      by (apply Z.pow_pos_nonneg; lia).
    rewrite E54 in HW. change (2 ^ 54) with 18014398509481984 in HW.
    set (w := 2 ^ (E + es + 105 - 54)) in *.
    assert (Hs : 2 * (q * (a * A) - N * A) <= a * A).
    { replace (q * (a * A) - N * A) with ((q * a - N) * A) by ring.
      clearbody a A w. nia. }
    rewrite HW in Hs. clearbody a A w. nia.
Qed.

(** the interior knot [i], times [m], is within [m * 2^-51] of [i]: in
    units of [2^-105] *)
Lemma key_accuracy (q E ms m es i : Z) :
  2 ^ 52 <= q < 2 ^ 53 -> 0 <= E ->
  2 * Z.abs (q * 2 ^ E - i * ms) <= 2 ^ E ->
  2 ^ 52 <= ms < 2 ^ 53 -> 1 <= m -> -105 <= es ->
  2 * Z.abs (ms * (m * 2 ^ (es + 105)) - 2 ^ 105) <= m * 2 ^ (es + 105) ->
  0 <= i <= m -> es + E <= -52 ->
  Z.abs (q * 2 ^ (es + E + 105) * m - i * 2 ^ 105) <= m * 2 ^ 54.
Proof.
  intros Hq HE Herr Hms Hm Hes Hdiv Hi Hle.
  assert (Ha : 0 < 2 ^ E) by (apply Z.pow_pos_nonneg; lia).
  assert (HA : 0 < 2 ^ (es + 105)) by (apply Z.pow_pos_nonneg; lia).
  assert (HW : 2 ^ (es + E + 105) = 2 ^ E * 2 ^ (es + 105)).
  { rewrite <- Z.pow_add_r by lia. f_equal. lia. }
  assert (HWle : 2 ^ (es + E + 105) <= 2 ^ 53)
    by (apply Z.pow_le_mono_r; lia).
  rewrite HW in *.
  change (2 ^ 52) with 4503599627370496 in *.
  change (2 ^ 53) with 9007199254740992 in *.
  change (2 ^ 54) with 18014398509481984 in *.
  change (2 ^ 105) with 40564819207303340847894502572032 in *.
  set (a := 2 ^ E) in *. set (A := 2 ^ (es + 105)) in *. clearbody a A.
  set (X := q * a - i * ms) in *.
  set (Y := ms * (m * A) - 40564819207303340847894502572032) in *.
  assert (HmA : m * A <= 9007199254740993).
  { assert (0 < m * A) by nia. subst Y.
    set (mA := m * A) in *. clearbody mA. nia. }
  replace (q * (a * A) * m - i * 40564819207303340847894502572032)
    with (X * (A * m) + i * Y) by (subst X Y; ring).
  pose proof (Z.abs_triangle (X * (A * m)) (i * Y)) as Htri.
  rewrite (Z.abs_mul X), (Z.abs_mul i) in Htri.
  rewrite (Z.abs_eq (A * m)), (Z.abs_eq i) in Htri by nia.
  assert (HX : 2 * (Z.abs X * (A * m)) <= a * A * m).
  { set (x := Z.abs X) in *. clearbody x. clear Htri. nia. }
  assert (HY : 2 * (i * Z.abs Y) <= i * (m * A)).
  { set (y := Z.abs Y) in *. clearbody y. clear Htri HX. nia. }
  assert (H3 : i * (m * A) <= m * 9007199254740993).
  { set (mA := m * A) in *. clearbody mA. clear Htri HX HY. nia. }
  assert (H4 : a * A * m <= 9007199254740992 * m).
  { set (aA := a * A) in *. clearbody aA. clear Htri HX HY H3. nia. }
  lia.
Qed.

(** the rational of a [double] in units of [2^-105] *)
Lemma Q_of_double_scaled (q : positive) (e : Z) :
  -105 <= e ->
  (Q_of_double (S754_finite false q e)
   == inject_Z (Z.pos q * 2 ^ (e + 105)) / inject_Z (2 ^ 105))%Q.
Proof.
  intros He. unfold Q_of_double. rewrite Qred_correct.
  rewrite inject_Z_mult, (Zpower_Qpower 2 (e + 105)) by lia.
  rewrite (Zpower_Qpower 2 105) by lia.
  change (inject_Z 2) with (2 # 1)%Q.
  rewrite (Qpower_plus (2 # 1) e 105) by done.
  field.
Qed.

(** closeness of two ratios, from the integers *)
Lemma Qabs_ratio_close (x : Q) (N i m : Z) :
  0 < m ->
  (x == inject_Z N / inject_Z (2 ^ 105))%Q ->
  Z.abs (N * m - i * 2 ^ 105) <= m * 2 ^ 54 ->
  (Qabs (x - inject_Z i / inject_Z m) <= 1 # 2251799813685248)%Q.
Proof.
  intros Hm Hx Hclose. rewrite Hx.
  destruct m as [|pm|pm]; [lia| |lia].
  change (2 ^ 105) with 40564819207303340847894502572032 in *.
  change (2 ^ 54) with 18014398509481984 in *.
  apply Qabs_Qle_condition.
  unfold Qle, Qdiv, Qminus, Qplus, Qopp, Qmult, Qinv, inject_Z; simpl.
  lia.
Qed.

(** the interior knots of the clamped-uniform builder in [double] *)
Lemma interiorKnot_double (nIntKnots i : Z) :
  interiorKnot (H:=Binary64.double_Scalar) nIntKnots i
  = SFmul 53 1024 (binary_normalize 53 1024 i 0 false)
      (SFdiv 53 1024 (binary_normalize 53 1024 1 0 false)
         (binary_normalize 53 1024 (nIntKnots - 1) 0 false)).
Proof. reflexivity. Qed.

(** the interior knots [i * (1.0 / m)], [i = 0 .. m], for a count that
    fits [int]: the first one is 0.0, they increase strictly, none
    exceeds 1.0, and knot [i] is within [2^-51] of [i / m] *)
Lemma interiorKnot_double_order (m : Z) :
  1 <= m < 2 ^ 31 ->
  interiorKnot (H:=Binary64.double_Scalar) (m + 1) 0 = S754_zero false
  /\ (forall i j : Z, 0 <= i < j -> j <= m ->
        SFltb (interiorKnot (H:=Binary64.double_Scalar) (m + 1) i)
          (interiorKnot (H:=Binary64.double_Scalar) (m + 1) j) = true)
  /\ (forall i : Z, 0 <= i <= m ->
        SFleb (S754_zero false)
          (interiorKnot (H:=Binary64.double_Scalar) (m + 1) i) = true
        /\ SFleb (interiorKnot (H:=Binary64.double_Scalar) (m + 1) i)
             (Binary64.of_int 1) = true
        /\ (Qabs (Q_of_double
                    (interiorKnot (H:=Binary64.double_Scalar) (m + 1) i)
                  - inject_Z i / inject_Z m)
            <= 1 # 2251799813685248)%Q).
Proof.
  intros Hm.
  assert (Hm53 : 1 <= m < 2 ^ 53)
    by (change (2 ^ 31) with 2147483648 in Hm;
        change (2 ^ 53) with 9007199254740992; lia).
  destruct (step_spec m Hm53) as (ms & es & Hstep & Hms & Hes & Hdiv).
  assert (Hknot : forall i : Z,
            interiorKnot (H:=Binary64.double_Scalar) (m + 1) i
            = SFmul 53 1024 (binary_normalize 53 1024 i 0 false)
                (S754_finite false ms es)).
  { intros i. rewrite interiorKnot_double.
    replace (m + 1 - 1) with m by lia. by rewrite Hstep. }
  assert (Hkey : forall i : Z, 1 <= i <= m ->
            exists (q : positive) (E : Z),
              interiorKnot (H:=Binary64.double_Scalar) (m + 1) i
              = S754_finite false q (es + E)
              /\ 2 ^ 52 <= Z.pos q < 2 ^ 53 /\ 0 <= E
              /\ 2 * Z.abs (Z.pos q * 2 ^ E - i * Z.pos ms) <= 2 ^ E
              /\ (2 * Z.abs (Z.pos q * 2 ^ E - i * Z.pos ms) = 2 ^ E
                  -> Z.even (Z.pos q) = true)).
  { intros i Hi. rewrite Hknot. apply knot_spec; [lia|done|lia]. }
  assert (H0 : interiorKnot (H:=Binary64.double_Scalar) (m + 1) 0
               = S754_zero false) by (by rewrite Hknot).
  split; [done|]. split.
  - intros i j Hij Hj.
    destruct (Hkey j) as (q2 & E2 & -> & Hq2 & HE2 & Herr2 & _); [lia|].
    destruct (Z.eq_dec i 0) as [->|Hi0]; [by rewrite H0|].
    destruct (Hkey i) as (q1 & E1 & -> & Hq1 & HE1 & Herr1 & _); [lia|].
    apply SFltb_finite.
    assert (HN : i * Z.pos ms + 2 ^ 52 <= j * Z.pos ms) by nia.
    assert (HN' : j * Z.pos ms < 2 ^ 84)
      by (change (2 ^ 84) with (2 ^ 31 * 2 ^ 53); nia).
    destruct (key_lt (Z.pos q1) (Z.pos q2) E1 E2 (i * Z.pos ms) (j * Z.pos ms)
                Hq1 Hq2 HE1 HE2 Herr1 Herr2 HN HN') as [Hlt|[Heq Hlt]].
    + left. lia.
    + right. split; [lia|done].
  - intros i Hi. destruct (Z.eq_dec i 0) as [->|Hi0].
    { rewrite H0. split; [done|]. split; [done|].
      apply (Qabs_ratio_close _ 0 0 m); [lia|done|].
      change (2 ^ 54) with 18014398509481984. simpl. lia. }
    destruct (Hkey i) as (q & E & -> & Hq & HE & Herr & Htie); [lia|].
    split; [done|].
    assert (HN : 0 <= i * Z.pos ms <= m * Z.pos ms) by nia.
    assert (Hle : es + E <= -52
                  /\ (es + E < -52
                      \/ es + E = -52 /\ Z.pos q <= 4503599627370496)).
    { destruct (key_le_one (Z.pos q) E (i * Z.pos ms) (Z.pos ms) m es
                  Hq HE Herr Htie Hms ltac:(lia) ltac:(lia) Hdiv HN)
        as [Hlt|[Heq Hle]]; [lia|].
      change (2 ^ 52) with 4503599627370496 in Hle. lia. }
    destruct Hle as [Hle Hcmp]. split.
    + change (Binary64.of_int 1)
        with (S754_finite false 4503599627370496 (-52)).
      apply SFleb_finite. lia.
    + apply (Qabs_ratio_close _ (Z.pos q * 2 ^ (es + E + 105)) i m);
        [lia|apply Q_of_double_scaled; lia|].
      apply (key_accuracy (Z.pos q) E (Z.pos ms) m es i); try done; lia.
Qed.

(** C5, as amended. For every scalar type, every degree [d >= 0] and
    every [nCtrlPts >= d + 1] whose knot count [nCtrlPts + d + 1] fits an
    [int], the clamped-uniform builder produces exactly
    [nCtrlPts + d + 1] knots: [d] copies of 0.0, then the
    [nIntKnots = nKnots - 2 d] interior knots, then [d] copies of 1.0.
    The interior knots are computed in [double] and converted to [T];
    for [double] they are stored as they are. The interior knot [i] is
    the [double] product of [i] and of the step [1.0 / (nIntKnots - 1)]:
    the first one is 0.0, every one lies in [0, 1] and within [2^-51] of
    [i / (nIntKnots - 1)], and they increase strictly. *)
Theorem makeClampedUniformKnotVector_shape {T : Type} `{Scalar T}
    (degree nCtrlPts : Z) (knots : list T) :
  0 <= degree -> degree + 1 <= nCtrlPts ->
  nCtrlPts + degree + 1 <= INT_MAX ->
  let nKnots := nCtrlPts + degree + 1 in
  let nIntKnots := nKnots - 2 * degree in
  let step :=
    Binary64.div (Binary64.of_int 1) (Binary64.of_int (nIntKnots - 1)) in
  exists interior : list spec_float,
    makeClampedUniformKnotVector degree nCtrlPts knots
    = Returned true
        (replicate (Z.to_nat degree) s_zero ++ (s_of_double <$> interior)
           ++ replicate (Z.to_nat degree) s_one)
    /\ (forall knots64 : list spec_float,
          makeClampedUniformKnotVector degree nCtrlPts knots64
          = Returned true
              (replicate (Z.to_nat degree) (S754_zero false) ++ interior
                 ++ replicate (Z.to_nat degree) (Binary64.of_int 1)))
    /\ length (replicate (Z.to_nat degree) s_zero
                 ++ (s_of_double <$> interior)
                 ++ replicate (Z.to_nat degree) s_one)
       = Z.to_nat nKnots
    /\ length interior = Z.to_nat nIntKnots
    /\ (forall i : Z, 0 <= i < nIntKnots ->
        interior !! Z.to_nat i
        = Some (Binary64.mul (Binary64.of_int i) step))
    /\ interior !! 0%nat = Some (S754_zero false)
    /\ (forall (i : nat) (x : spec_float), interior !! i = Some x ->
        SFleb (S754_zero false) x = true
        /\ SFleb x (Binary64.of_int 1) = true
        /\ (Qabs (Q_of_double x
                  - inject_Z (Z.of_nat i) / inject_Z (nIntKnots - 1))
            <= 1 # 2251799813685248)%Q)
    /\ (forall (i j : nat) (x y : spec_float), (i < j)%nat ->
        interior !! i = Some x -> interior !! j = Some y ->
        SFltb x y = true).
Proof.
  intros Hd Hn Hmax nKnots nIntKnots step.
  exists (interiorKnot (H:=Binary64.double_Scalar) nIntKnots
            <$> seqZ 0 nIntKnots).
  assert (Hlen : length (interiorKnot (H:=Binary64.double_Scalar) nIntKnots
                           <$> seqZ 0 nIntKnots)
                 = Z.to_nat nIntKnots)
    by (by rewrite length_fmap, length_seqZ).
  assert (Hm : 1 <= nIntKnots - 1 < 2 ^ 31)
    by (subst nIntKnots nKnots; unfold INT_MAX in Hmax; lia).
  destruct (interiorKnot_double_order (nIntKnots - 1) Hm)
    as (H0 & Hlt & Hle).
  replace (nIntKnots - 1 + 1) with nIntKnots in H0, Hlt, Hle by lia.
  assert (Hget : forall (i : nat) (x : spec_float),
            (interiorKnot (H:=Binary64.double_Scalar) nIntKnots
               <$> seqZ 0 nIntKnots) !! i = Some x ->
            x = interiorKnot nIntKnots (Z.of_nat i)
            /\ 0 <= Z.of_nat i < nIntKnots).
  { intros i x Hx. rewrite list_lookup_fmap in Hx.
    destruct (seqZ 0 nIntKnots !! i) as [z|] eqn:Ez; [|done].
    apply lookup_seqZ in Ez as [-> Hi]. injection Hx as <-.
    split; [f_equal; lia|lia]. }
  split.
  { rewrite <- list_fmap_compose.
    exact (makeClampedUniformKnotVector_closed_form
             degree nCtrlPts knots Hd Hn Hmax). }
  split.
  { intros knots64.
    exact (makeClampedUniformKnotVector_closed_form
             (H:=Binary64.double_Scalar) degree nCtrlPts knots64
             Hd Hn Hmax). }
  split; [rewrite !length_app, !length_replicate, length_fmap, Hlen;
          subst nIntKnots nKnots; lia|].
  split; [done|]. split; [|split; [|split]].
  - intros i Hi. rewrite list_lookup_fmap, lookup_seqZ_lt by lia.
    simpl. rewrite Z2Nat.id by lia. reflexivity.
  - rewrite list_lookup_fmap, (lookup_seqZ_lt _ _ 0%nat) by lia.
    exact (f_equal Some H0).
  - intros i x Hx. apply Hget in Hx as [-> Hi]. apply Hle. lia.
  - intros i j x y Hij Hx Hy.
    apply Hget in Hx as [-> Hi]. apply Hget in Hy as [-> Hj].
    apply Hlt; lia.
Qed.

Lemma makeClampedUniformKnotVector_shape_witness :
  let step :=
    Binary64.div (Binary64.of_int 1)
      (Binary64.of_int (4 + 2 + 1 - 2 * 2 - 1)) in
  exists interior : list spec_float,
    makeClampedUniformKnotVector (T:=Q) 2 4 [7 # 1]%Q
    = Returned true
        (replicate (Z.to_nat 2) 0%Q ++ (Q_of_double <$> interior)
           ++ replicate (Z.to_nat 2) 1%Q)
    /\ (forall knots64 : list spec_float,
          makeClampedUniformKnotVector 2 4 knots64
          = Returned true
              (replicate (Z.to_nat 2) (S754_zero false) ++ interior
                 ++ replicate (Z.to_nat 2) (Binary64.of_int 1)))
    /\ length (replicate (Z.to_nat 2) 0%Q ++ (Q_of_double <$> interior)
                 ++ replicate (Z.to_nat 2) 1%Q)
       = Z.to_nat (4 + 2 + 1)
    /\ length interior = Z.to_nat (4 + 2 + 1 - 2 * 2)
    /\ (forall i : Z, 0 <= i < 4 + 2 + 1 - 2 * 2 ->
        interior !! Z.to_nat i
        = Some (Binary64.mul (Binary64.of_int i) step))
    /\ interior !! 0%nat = Some (S754_zero false)
    /\ (forall (i : nat) (x : spec_float), interior !! i = Some x ->
        SFleb (S754_zero false) x = true
        /\ SFleb x (Binary64.of_int 1) = true
        /\ (Qabs (Q_of_double x
                  - inject_Z (Z.of_nat i) / inject_Z (4 + 2 + 1 - 2 * 2 - 1))
            <= 1 # 2251799813685248)%Q)
    /\ (forall (i j : nat) (x y : spec_float), (i < j)%nat ->
        interior !! i = Some x -> interior !! j = Some y ->
        SFltb x y = true).
Proof.
  refine (makeClampedUniformKnotVector_shape (T:=Q) 2 4 [7 # 1]%Q _ _ _);
    unfold INT_MAX; lia.
Defined.

(** C5, as stated, fails once [nCtrlPts + d + 1] does not fit the [int]
    that holds it: for degree 2 and 4294967301 control points the count is
    truncated to 8, and 8 knots are produced, not 4294967304. *)
Lemma makeClampedUniformKnotVector_truncates :
  0 <= 2 /\ 2 + 1 <= 4294967301
  /\ makeClampedUniformKnotVector (H:=Binary64.double_Scalar) 2 4294967301 []
     = Returned true Scenario.clamped_truncated_double
  /\ Z.of_nat (length Scenario.clamped_truncated_double) <> 4294967301 + 2 + 1.
Proof. repeat split; try lia; vm_compute; done. Qed.

(** The last interior knot is not always 1.0: for degree 1 and 50 control
    points it is the product of 49 and of the [double] nearest to 1/49,
    which is rounded to [1 - 2^-53], the [double] just below 1.0. *)
Example makeClampedUniformKnotVector_last_interior :
  Binary64.mul (Binary64.of_int 49)
    (Binary64.div (Binary64.of_int 1) (Binary64.of_int 49))
  = Scenario.dbl 9007199254740991 (-53)
  /\ (success (makeClampedUniformKnotVector (H:=Binary64.double_Scalar)
                 1 50 []) ≫= (.!! 50%nat))
     = Some (Scenario.dbl 9007199254740991 (-53))
  /\ SFltb (Scenario.dbl 9007199254740991 (-53)) (Binary64.of_int 1) = true.
Proof. repeat split; vm_compute; reflexivity. Qed.


(** *** binary64 arithmetic *)

(** C4 fails on the code for [double]: for degree 3 and 6 control points
    the loop leaves 9 knots, not 10. The sum of nine rounded steps of
    [1.0 / 9] exceeds 1.0, so the last knot is 0.888..., and no knot is
    1.0. This holds whatever fuel the model is given beyond 10 and whatever
    the container held before. *)
Theorem makeUniformKnotVector_double_loses_a_knot (fuel : nat)
    (knots : list spec_float) :
  makeUniformKnotVector (H:=Binary64.double_Scalar) (10 + fuel) 3 6 knots
  = Returned true Scenario.uniform_3_6_double
  /\ length Scenario.uniform_3_6_double = 9%nat
  /\ Z.of_nat (length Scenario.uniform_3_6_double) <> 6 + 3 + 1
  /\ last Scenario.uniform_3_6_double
     = Some (Scenario.dbl 8006399337547550 (-53))
  /\ SFltb (Scenario.dbl 8006399337547550 (-53)) (Binary64.of_int 1) = true.
Proof.
  split; [|by repeat split].
  unfold makeUniformKnotVector.
  change (tooFewCtrlPts 3 6) with false.
  change (nKnotsOf 3 6) with 10. cbv iota.
  change (10 =? INT_MIN) with false. change (10 <? 0) with false. cbv iota.
  rewrite (uniformLoop_more_fuel 10 fuel _ _ _ Scenario.uniform_3_6_double);
    [done|].
  vm_compute. reflexivity.
Qed.

(** ** [std::vector] accesses *)

Section VectorFacts.
Context {A : Type}.
Implicit Types (v : list A) (x : A) (idx pos : Z).

Lemma at_Some v idx :
  0 <= idx < Z.of_nat (length v) -> at_ v idx = v !! Z.to_nat idx.
Proof.
  intros Hi. unfold at_.
  destruct (Z.leb_spec 0 idx); [|lia].
  destruct (Z.ltb_spec idx (Z.of_nat (length v))); [done|lia].
Qed.

Lemma at_is_Some v idx :
  0 <= idx < Z.of_nat (length v) -> is_Some (at_ v idx).
Proof.
  intros Hi. rewrite at_Some by done. apply lookup_lt_is_Some. lia.
Qed.

Lemma at_None v idx : Z.of_nat (length v) <= idx -> at_ v idx = None.
Proof.
  intros Hi. unfold at_.
  destruct (Z.ltb_spec idx (Z.of_nat (length v))); [lia|].
  by rewrite andb_false_r.
Qed.

Lemma vec_set_Some v idx x :
  0 <= idx < Z.of_nat (length v) ->
  vec_set v idx x = Some (<[Z.to_nat idx := x]> v).
Proof.
  intros Hi. unfold vec_set.
  destruct (Z.leb_spec 0 idx); [|lia].
  destruct (Z.ltb_spec idx (Z.of_nat (length v))); [done|lia].
Qed.

Lemma vec_set_length v idx x v' :
  vec_set v idx x = Some v' -> length v' = length v.
Proof.
  unfold vec_set. destruct (_ && _); [|done].
  intros [= <-]. apply length_insert.
Qed.

Lemma vec_insert_Some v pos x :
  0 <= pos <= Z.of_nat (length v) ->
  vec_insert v pos x
  = Some (take (Z.to_nat pos) v ++ x :: drop (Z.to_nat pos) v).
Proof.
  intros Hp. unfold vec_insert.
  destruct (Z.leb_spec 0 pos); [|lia].
  destruct (Z.leb_spec pos (Z.of_nat (length v))); [done|lia].
Qed.

Lemma vec_insert_length v pos x v' :
  vec_insert v pos x = Some v' -> length v' = S (length v).
Proof.
  unfold vec_insert.
  destruct (Z.leb_spec 0 pos); [|done].
  destruct (Z.leb_spec pos (Z.of_nat (length v))); [|done].
  intros [= <-]. rewrite length_app. cbn [length].
  rewrite length_take, length_drop. lia.
Qed.

(** the inserted value sits at index [pos]; the element that was there has
    moved to [pos + 1] *)
Lemma vec_insert_lookup v pos x v' :
  vec_insert v pos x = Some v' ->
  v' !! Z.to_nat pos = Some x
  /\ v' !! S (Z.to_nat pos) = v !! Z.to_nat pos.
Proof.
  unfold vec_insert.
  destruct (Z.leb_spec 0 pos); [|done].
  destruct (Z.leb_spec pos (Z.of_nat (length v))); [|done].
  intros [= <-].
  assert (Hl : length (take (Z.to_nat pos) v) = Z.to_nat pos)
    by (rewrite length_take; lia).
  split.
  - rewrite lookup_app_r by lia. by rewrite Hl, Nat.sub_diag.
  - rewrite lookup_app_r by lia. rewrite Hl.
    replace (S (Z.to_nat pos) - Z.to_nat pos)%nat with 1%nat by lia.
    simpl. rewrite lookup_drop. f_equal. lia.
Qed.

End VectorFacts.

Lemma at_inv {A : Type} (v : list A) (idx : Z) (x : A) :
  at_ v idx = Some x ->
  0 <= idx < Z.of_nat (length v) /\ v !! Z.to_nat idx = Some x.
Proof.
  unfold at_.
  destruct (Z.leb_spec 0 idx); [|done].
  destruct (Z.ltb_spec idx (Z.of_nat (length v))); [|done].
  simpl. intros Hx. split; [lia|done].
Qed.

Lemma vec_set_inv {A : Type} (v : list A) (idx : Z) (x : A) (v' : list A) :
  vec_set v idx x = Some v' -> v' = <[Z.to_nat idx := x]> v.
Proof.
  unfold vec_set. destruct (_ && _); [|done]. by intros [= <-].
Qed.

(** ** KnotClamper *)

Section ClamperFacts.
Context {T : Type} `{Scalar T}.

(** the loop [knots[i] = start] over [lo .. lo + n - 1] *)
Lemma fill_loop (n : nat) (lo : Z) (start : T) (knots : list T) :
  0 <= lo -> lo + Z.of_nat n <= Z.of_nat (length knots) ->
  is_size_t (Z.of_nat (length knots)) ->
  exists knots',
    for_upM n lo (fun i k => vec_set k (u64 i) start) knots = Some knots'
    /\ length knots' = length knots
    /\ forall j : nat,
         knots' !! j
         = if decide (lo <= Z.of_nat j < lo + Z.of_nat n)
           then Some start else knots !! j.
Proof.
  revert lo knots. induction n as [|n IH]; intros lo knots Hlo Hhi Hsz.
  - exists knots. repeat split. intros j. case_decide; [lia|done].
  - cbn [for_upM]. unfold is_size_t in Hsz.
    rewrite u64_small by lia. rewrite vec_set_Some by lia.
    destruct (IH (lo + 1) (<[Z.to_nat lo := start]> knots))
      as (knots' & Hrun & Hlen & Hget).
    { lia. } { rewrite length_insert. lia. }
    { unfold is_size_t. rewrite length_insert. lia. }
    exists knots'. split; [done|]. rewrite length_insert in Hlen.
    split; [done|]. intros j. rewrite Hget.
    destruct (decide (Z.to_nat lo = j)) as [<-|Hne].
    + rewrite list_lookup_insert_eq by lia.
      repeat case_decide; try done; lia.
    + rewrite list_lookup_insert_ne by done.
      repeat case_decide; try done; lia.
Qed.

(** above [INT_MAX] the counter of the clampers overflows *)
Lemma clampKnotVectorLeft_overflow (degree : Z) (knots : list T) :
  INT_MAX < degree -> clampKnotVectorLeft degree knots = None.
Proof.
  intros Hd. unfold clampKnotVectorLeft.
  destruct (at_ knots degree) as [start|]; [simpl|done].
  apply for_int_overflow; unfold INT_MAX in *; lia.
Qed.

Lemma clampKnotVectorRight_overflow (degree : Z) (knots : list T) :
  INT_MAX < degree -> clampKnotVectorRight degree knots = None.
Proof.
  intros Hd. unfold clampKnotVectorRight.
  destruct (at_ knots _) as [end_|]; [simpl|done].
  apply for_int_overflow; unfold INT_MAX in *; lia.
Qed.

End ClamperFacts.

(** C7, as amended. For every [degree <= INT_MAX] and every knot vector of
    length greater than [2 * degree], [clampKnotVectorLeft] overwrites the
    first [degree] knots with the value at index [degree]: afterwards the
    knots at the indices [0 .. degree] all equal the old [knots[degree]],
    and every entry at an index [>= degree] is unchanged. *)
Theorem clampKnotVectorLeft_spec {T : Type} `{Scalar T}
    (degree : Z) (knots : list T) :
  0 <= degree <= INT_MAX -> is_size_t (Z.of_nat (length knots)) ->
  2 * degree < Z.of_nat (length knots) ->
  exists (start : T) (knots' : list T),
    knots !! Z.to_nat degree = Some start
    /\ clampKnotVectorLeft degree knots = Some knots'
    /\ length knots' = length knots
    /\ (forall i : nat, Z.of_nat i <= degree -> knots' !! i = Some start)
    /\ (forall i : nat, degree <= Z.of_nat i -> knots' !! i = knots !! i).
Proof.
  intros Hd Hsz Hlen.
  destruct (lookup_lt_is_Some_2 knots (Z.to_nat degree)) as [start Hstart];
    [lia|].
  destruct (fill_loop (Z.to_nat degree) 0 start knots)
    as (knots' & Hrun & Hl & Hget); [lia|lia|done|].
  exists start, knots'. split; [done|]. split.
  - unfold clampKnotVectorLeft. rewrite at_Some by lia.
    rewrite Hstart. simpl. by rewrite for_int_in_range by lia.
  - split; [done|]. split; intros i Hi; rewrite Hget.
    + case_decide; [done|].
      replace i with (Z.to_nat degree) by lia. done.
    + case_decide; [|done].
      replace i with (Z.to_nat degree) by lia. done.
Qed.

Lemma clampKnotVectorLeft_spec_witness :
  exists (start : Q) (knots' : list Q),
    [1; 2; 3; 4; 5; 6; 7]%Q !! Z.to_nat 2 = Some start
    /\ clampKnotVectorLeft 2 [1; 2; 3; 4; 5; 6; 7]%Q = Some knots'
    /\ length knots' = length [1; 2; 3; 4; 5; 6; 7]%Q
    /\ (forall i : nat, Z.of_nat i <= 2 -> knots' !! i = Some start)
    /\ (forall i : nat, 2 <= Z.of_nat i ->
        knots' !! i = [1; 2; 3; 4; 5; 6; 7]%Q !! i).
Proof.
  apply (clampKnotVectorLeft_spec 2 [1; 2; 3; 4; 5; 6; 7]%Q);
    unfold is_size_t, INT_MAX; simpl; lia.
Defined.

(** C7, as stated, fails for a degree above [INT_MAX]: the loop counter is
    an [int], and on a vector of 2^32 + 1 knots with [degree = 2^31] the
    call has to increment it at [INT_MAX], which is undefined behaviour,
    although [knots[degree]] and the [degree] knots to overwrite are all
    inside the vector. *)
Lemma clampKnotVectorLeft_counter_overflows :
  2 * 2147483648
  < Z.of_nat (length (replicate (Z.to_nat 4294967297) 0%Q))
  /\ is_Some (replicate (Z.to_nat 4294967297) 0%Q !! Z.to_nat 2147483648)
  /\ clampKnotVectorLeft 2147483648 (replicate (Z.to_nat 4294967297) 0%Q)
     = None.
Proof.
  split; [rewrite length_replicate; lia|]. split.
  - apply lookup_lt_is_Some. rewrite length_replicate. lia.
  - apply clampKnotVectorLeft_overflow. unfold INT_MAX. lia.
Qed.

(** ** KnotVectorValidator *)

Section ValidatorFacts.
Context {T : Type} `{Scalar T}.

(** every access of the loop is inside the vector when it has at least
    [degree + 2] elements *)
Lemma closedLoop_in_bounds (n : nat) (i degree : Z) (knots : list T) :
  0 <= i -> i + Z.of_nat n <= degree + 2 -> degree + 2 <= INT_MAX ->
  degree + 2 <= Z.of_nat (length knots) ->
  is_size_t (Z.of_nat (length knots)) ->
  is_Some (closedLoop n i degree knots).
Proof.
  revert i. induction n as [|n IH]; intros i Hi Hn Hmax Hlen Hsz; simpl.
  - by eexists.
  - unfold is_size_t in Hsz.
    rewrite (u64_small i) by lia.
    destruct (at_is_Some knots i) as [x ->]; [lia|].
    rewrite u64_small by lia.
    destruct (at_is_Some knots (Z.of_nat (length knots) - degree - 2 + i))
      as [y ->]; [lia|].
    simpl. destruct (s_ltb _ _); [by eexists|].
    destruct (Z.ltb_spec i INT_MAX); [|lia].
    apply IH; unfold is_size_t; lia.
Qed.

(** on a vector whose knots are all equal no iteration returns, and a
    loop that has to count beyond [INT_MAX] has no result *)
Lemma closedLoop_overflow (n : nat) (i degree : Z) (c : T) (len : nat) :
  s_ltb s_eps (s_abs (s_sub c c)) = false ->
  i <= INT_MAX -> INT_MAX < i + Z.of_nat n ->
  closedLoop n i degree (replicate len c) = None.
Proof.
  intros Hc. revert i. induction n as [|n IH]; intros i Hi Hn; [lia|].
  cbn [closedLoop].
  destruct (at_ (replicate len c) (u64 i)) as [x|] eqn:Ex; [|done].
  destruct (at_ (replicate len c) (u64 (_ + i))) as [y|] eqn:Ey; [|done].
  apply at_inv in Ex as [_ Ex]. apply lookup_replicate in Ex as [-> _].
  apply at_inv in Ey as [_ Ey]. apply lookup_replicate in Ey as [-> _].
  cbn [mbind option_bind]. rewrite Hc.
  destruct (Z.ltb_spec i INT_MAX); [|done]. apply IH; lia.
Qed.

(** the first iteration already leaves a vector that is too short *)
Lemma closedLoop_out_of_bounds (n : nat) (degree : Z) (knots : list T) :
  is_uint degree -> is_size_t (Z.of_nat (length knots)) ->
  Z.of_nat (length knots) < degree + 2 ->
  closedLoop (S n) 0 degree knots = None.
Proof.
  intros Hd Hsz Hlen. simpl.
  unfold is_uint, UINT_MAX in Hd. unfold is_size_t in Hsz.
  destruct (at_ knots (u64 0)) as [x|]; [simpl|done].
  rewrite at_None; [done|].
  unfold u64.
  replace (Z.of_nat (length knots) - degree - 2 + 0)
    with (Z.of_nat (length knots) - degree - 2 + 2 ^ 64 + (-1) * 2 ^ 64)
    by lia.
  rewrite Z.mod_add by lia. rewrite Z.mod_small by lia. lia.
Qed.

End ValidatorFacts.

(** C10, as amended. For [degree <= INT_MAX - 2], where the [int] counter
    of the loop cannot overflow, [isKnotVectorClosed] yields its boolean,
    with every access inside the vector, exactly when the vector has at
    least [degree + 2] knots; with fewer knots it indexes out of range. *)
Theorem isKnotVectorClosed_bounds {T : Type} `{Scalar T}
    (degree : Z) (knots : list T) :
  0 <= degree <= INT_MAX - 2 -> is_size_t (Z.of_nat (length knots)) ->
  is_Some (isKnotVectorClosed degree knots)
  <-> degree + 2 <= Z.of_nat (length knots).
Proof.
  intros Hd Hsz. unfold isKnotVectorClosed. unfold INT_MAX in Hd.
  rewrite u32_small by (unfold UINT_MAX; lia). split.
  - intros [b Hb].
    destruct (Z.le_gt_cases (degree + 2) (Z.of_nat (length knots)))
      as [Hle|Hgt]; [done|].
    destruct (Z.to_nat (degree + 2)) as [|n] eqn:E; [lia|].
    rewrite closedLoop_out_of_bounds in Hb;
      [done|unfold is_uint, UINT_MAX; lia|done|lia].
  - intros Hlen. apply closedLoop_in_bounds; try done; unfold INT_MAX; lia.
Qed.

Lemma isKnotVectorClosed_bounds_witness :
  (is_Some (isKnotVectorClosed 2 [0; 1; 2; 3; 0; 1; 2; 3]%Q)
   <-> 2 + 2 <= Z.of_nat (length [0; 1; 2; 3; 0; 1; 2; 3]%Q))
  /\ (is_Some (isKnotVectorClosed 2 [0; 1; 2]%Q)
      <-> 2 + 2 <= Z.of_nat (length [0; 1; 2]%Q)).
Proof.
  split.
  - apply (isKnotVectorClosed_bounds 2 [0; 1; 2; 3; 0; 1; 2; 3]%Q);
      unfold is_size_t, INT_MAX; simpl; lia.
  - apply (isKnotVectorClosed_bounds 2 [0; 1; 2]%Q);
      unfold is_size_t, INT_MAX; simpl; lia.
Defined.

(** C10, as stated, fails at both ends of the range of [degree]. For
    [degree = UINT_MAX - 1] the bound [degree + 2] of the loop is computed
    as an [unsigned int] and is 0, so nothing is read and the empty
    vector, shorter than [degree + 2], is answered [true] with no access
    out of range. For [degree = INT_MAX - 1] and a vector of
    [degree + 2] equal knots the loop has to increment its [int] counter
    at [INT_MAX], which is undefined behaviour. *)
Lemma isKnotVectorClosed_no_access :
  Z.of_nat (length (@nil Q)) < 4294967294 + 2
  /\ u32 (4294967294 + 2) = 0
  /\ isKnotVectorClosed (T:=Q) 4294967294 [] = Some true
  /\ 2147483646 + 2
     <= Z.of_nat (length (replicate (Z.to_nat 2147483648) 0%Q))
  /\ isKnotVectorClosed 2147483646 (replicate (Z.to_nat 2147483648) 0%Q)
     = None.
Proof.
  split; [done|]. split; [done|]. split; [done|]. split.
  - rewrite length_replicate. lia.
  - unfold isKnotVectorClosed.
    rewrite u32_small by (unfold UINT_MAX; lia).
    apply closedLoop_overflow; [reflexivity|unfold INT_MAX; lia..].
Qed.

(** ** KnotInsertion *)

Section InsertionFacts.
Context {T : Type} `{Scalar T}.
Variable n : nat.
Variable elsewhere : T -> Z -> list T -> Z.

Lemma coeff_is_Some (u : T) (knots : list T) (lo hi lo' : Z) :
  0 <= lo < Z.of_nat (length knots) ->
  0 <= hi < Z.of_nat (length knots) ->
  0 <= lo' < Z.of_nat (length knots) ->
  is_Some (coeff u knots lo hi lo').
Proof.
  intros Hlo Hhi Hlo'. unfold coeff.
  destruct (at_is_Some knots lo) as [? ->]; [done|].
  destruct (at_is_Some knots hi) as [? ->]; [done|].
  destruct (at_is_Some knots lo') as [? ->]; [done|].
  by eexists.
Qed.



Lemma blendAt_length (a : T) (i : Z) (cp cp' : list (@vec T)) :
  blendAt a i cp = Some cp' -> length cp' = length cp.
Proof.
  unfold blendAt.
  destruct (at_ cp (u64 (i - 1))); [simpl|done].
  destruct (at_ cp (u64 i)); [simpl|done].
  apply vec_set_length.
Qed.



(** a strict descent anywhere in a vector makes [std::is_sorted] false *)
Lemma is_sorted_descent (l1 l2 : list T) (a b : T) :
  s_ltb b a = true -> is_sorted (l1 ++ a :: b :: l2) = false.
Proof.
  intros Hlt. induction l1 as [|x l1 IH].
  - simpl. by rewrite Hlt.
  - change ((x :: l1) ++ a :: b :: l2) with (x :: (l1 ++ a :: b :: l2)).
    destruct (l1 ++ a :: b :: l2) as [|y rest] eqn:E.
    + by destruct l1.
    + cbn [is_sorted]. cbn [is_sorted] in IH. rewrite IH.
      apply andb_false_r.
Qed.

(** the new knot goes before [knots[span]]: wherever the old knot at
    [span] is less than [u], the knot vector a completed insertion leaves
    is not monotonic *)
Lemma curveInsertKnot_descent (u : T) (deg : Z) (knots : list T)
    (cp : list (@vec T)) (knots' : list T) (cp' : list (@vec T)) (b : T) :
  curveInsertKnot n elsewhere u deg knots cp = Some (knots', cp') ->
  knots !! Z.to_nat (findSpan elsewhere u deg knots) = Some b ->
  s_ltb b u = true ->
  isKnotVectorMonotonic knots' = false.
Proof.
  intros Hrun Hb Hlt. unfold curveInsertKnot in Hrun.
  destruct (vec_insert knots _ u) as [k1|] eqn:Ek; [|done].
  simpl in Hrun.
  destruct (vec_insert cp _ _) as [c1|]; [|done]. simpl in Hrun.
  destruct (for_int _ _ _ c1) as [c2|]; [|done]. simpl in Hrun.
  injection Hrun as <- <-.
  unfold vec_insert in Ek. destruct (_ && _); [|done].
  injection Ek as <-.
  rewrite (drop_S _ b _ Hb).
  by apply is_sorted_descent.
Qed.

End InsertionFacts.




(** C2 fails on the code: the new knot is inserted before index [span],
    not after it. On the uniform knot vector 0 .. 6 with degree 2 and
    [u = 5/2], [span] is 2; both vectors grow by one, but [u] lands at
    index 2 and the old [knots[2] = 2] follows it at index 3, so the
    resulting knot vector is not monotonic. *)
Theorem curveInsertKnot_breaks_monotonicity
    (elsewhere : Q -> Z -> list Q -> Z) :
  findSpan elsewhere (5 # 2)%Q 2 Scenario.knotsU = 2
  /\ isKnotVectorMonotonic Scenario.knotsU = true
  /\ curveInsertKnot 2 elsewhere (5 # 2)%Q 2 Scenario.knotsU Scenario.cp8
     = Some ([0; 1; 5 # 2; 2; 3; 4; 5; 6]%Q,
             [[0; 0]; [3 # 2; 3]; [3 # 2; 3]; [3; 3]; [4; 0]]%Q)
  /\ [0; 1; 5 # 2; 2; 3; 4; 5; 6]%Q !! 2%nat = Some (5 # 2)%Q
  /\ [0; 1; 5 # 2; 2; 3; 4; 5; 6]%Q !! 3%nat = Some (2 # 1)%Q
  /\ isKnotVectorMonotonic [0; 1; 5 # 2; 2; 3; 4; 5; 6]%Q = false.
Proof. repeat split; vm_compute; reflexivity. Qed.

(** C1 fails on the code, on the scenario of section 8 of the
    specification (degree 2, knots 0 0 0 1/2 1 1 1, insertion of 1/2).
    The curve passes through (2/5, 37/50), (1, 13/8), (3, 17/8) and
    (18/5, 53/50) at the parameters 1/10, 1/4, 3/4 and 9/10; after
    [curveInsertKnot] it passes through other points at all four. The
    insertion as section 4.4 words it yields the same knot vector with
    the control point (2, 5/2) at index 2, where the code leaves (3, 3),
    and keeps the four points. *)
Theorem curveInsertKnot_changes_curve
    (elsewhere : Q -> Z -> list Q -> Z) :
  let ts := [1 # 10; 1 # 4; 3 # 4; 9 # 10]%Q in
  let knots' := [0; 0; 0; 1 # 2; 1 # 2; 1; 1; 1]%Q in
  map (curvePoint 2 2 Scenario.knots8 Scenario.cp8) ts
  = [[2 # 5; 37 # 50]; [1; 13 # 8]; [3; 17 # 8]; [18 # 5; 53 # 50]]%Q
  /\ curveInsertKnot 2 elsewhere (1 # 2)%Q 2 Scenario.knots8 Scenario.cp8
     = Some (knots', [[0; 0]; [1; 2]; [3; 3]; [3; 3]; [4; 0]]%Q)
  /\ map (curvePoint 2 2 knots' [[0; 0]; [1; 2]; [3; 3]; [3; 3]; [4; 0]]%Q) ts
     = [[11 # 25; 19 # 25]; [5 # 4; 7 # 4]; [13 # 4; 9 # 4];
        [91 # 25; 27 # 25]]%Q
  /\ specInsertKnot 2 elsewhere (1 # 2)%Q 2 Scenario.knots8 Scenario.cp8
     = (knots', [[0; 0]; [1; 2]; [2; 5 # 2]; [3; 3]; [4; 0]]%Q)
  /\ map (curvePoint 2 2 knots' [[0; 0]; [1; 2]; [2; 5 # 2]; [3; 3]; [4; 0]]%Q)
       ts
     = [[2 # 5; 37 # 50]; [1; 13 # 8]; [3; 17 # 8]; [18 # 5; 53 # 50]]%Q.
Proof. repeat split; vm_compute; reflexivity. Qed.

(** C8 fails on the code: the blend coefficient of [surfaceInsertKnotU] is
    read at the row index, [(u - knots[i]) / (knots[i + deg] - knots[j])].
    On a surface of degree 2 with two equal rows over the knots 0 .. 9 and
    [u = 11/2] (span 5, window 4 .. 5) the coefficients are -11/4 and
    -11/7 in row 0 and -9/2 and -9/5 in row 1, where the recurrence of the
    curve algorithm has 3/2 and 0. The two rows, equal before, differ
    afterwards, and neither is what [curveInsertKnot] makes of the row. *)
Theorem surfaceInsertKnotU_blend_depends_on_row
    (elsewhere : Q -> Z -> list Q -> Z) :
  let knots' := [0; 1; 2; 3; 4; 11 # 2; 5; 6; 7; 8; 9]%Q in
  let row0 := [[0; 0]; [1; 2]; [3; 3]; [4; 0]; [5 # 4; -11 # 4];
               [45 # 14; -99 # 14]; [6; 2]; [7; 0]]%Q in
  let row1 := [[0; 0]; [1; 2]; [3; 3]; [4; 0]; [-1 # 2; -9 # 2];
               [-7 # 5; -63 # 5]; [6; 2]; [7; 0]]%Q in
  let rowC := [[0; 0]; [1; 2]; [3; 3]; [4; 0]; [11 # 2; 3 # 2];
               [11 # 2; 3 # 2]; [6; 2]; [7; 0]]%Q in
  findSpan elsewhere (11 # 2)%Q 2 Scenario.knotsS = 5
  /\ surfaceInsertKnotU 2 elsewhere (11 # 2)%Q 2 Scenario.knotsS
       [Scenario.rowS; Scenario.rowS]
     = Some (knots', [row0; row1])
  /\ curveInsertKnot 2 elsewhere (11 # 2)%Q 2 Scenario.knotsS Scenario.rowS
     = Some (knots', rowC)
  /\ row0 <> row1 /\ row0 <> rowC /\ row1 <> rowC
  /\ map (fun j => coeff (11 # 2)%Q knots' 0 (0 + 2) j) [4; 5]
     = [Some (-11 # 4)%Q; Some (-11 # 7)%Q]
  /\ map (fun j => coeff (11 # 2)%Q knots' 1 (1 + 2) j) [4; 5]
     = [Some (-9 # 2)%Q; Some (-9 # 5)%Q]
  /\ map (fun j => coeff (11 # 2)%Q knots' j (j + 2) j) [4; 5]
     = [Some (3 # 2)%Q; Some 0%Q].
Proof. repeat split; try (vm_compute; reflexivity); discriminate. Qed.

(** * Further properties of the clamper and the validator *)

Section ClamperMore.
Context {T : Type} `{Scalar T}.

(** the loop [knots[knots.size() - 1 - i] = x] over [i = lo .. lo + n - 1] *)
Lemma fill_down_loop (n : nat) (lo : Z) (x : T) (knots : list T) :
  0 <= lo -> lo + Z.of_nat n <= Z.of_nat (length knots) ->
  is_size_t (Z.of_nat (length knots)) ->
  exists knots',
    for_upM n lo
      (fun i k => vec_set k (u64 (Z.of_nat (length k) - 1 - i)) x) knots
    = Some knots'
    /\ length knots' = length knots
    /\ forall j : nat,
         knots' !! j
         = if decide (Z.of_nat (length knots) - lo - Z.of_nat n <= Z.of_nat j
                      < Z.of_nat (length knots) - lo)
           then Some x else knots !! j.
Proof.
  revert lo knots. induction n as [|n IH]; intros lo knots Hlo Hhi Hsz.
  - exists knots. repeat split. intros j. case_decide; [lia|done].
  - cbn [for_upM]. unfold is_size_t in Hsz.
    rewrite u64_small by lia. rewrite vec_set_Some by lia.
    set (k1 := <[Z.to_nat (Z.of_nat (length knots) - 1 - lo) := x]> knots).
    assert (Hl1 : length k1 = length knots) by apply length_insert.
    destruct (IH (lo + 1) k1) as (knots' & Hrun & Hlen & Hget).
    { lia. } { rewrite Hl1. lia. } { unfold is_size_t. rewrite Hl1. lia. }
    exists knots'. split; [done|]. split; [congruence|].
    intros j. rewrite Hget, Hl1. subst k1.
    destruct (decide (Z.to_nat (Z.of_nat (length knots) - 1 - lo) = j))
      as [<-|Hne].
    + rewrite list_lookup_insert_eq by lia.
      repeat case_decide; try done; lia.
    + rewrite list_lookup_insert_ne by done.
      repeat case_decide; try done; lia.
Qed.

(** what [clampKnotVectorLeft] leaves at each index *)
Lemma clampKnotVectorLeft_lookup (degree : Z) (knots : list T) :
  0 <= degree < Z.of_nat (length knots) -> degree <= INT_MAX ->
  is_size_t (Z.of_nat (length knots)) ->
  exists (start : T) (knots' : list T),
    knots !! Z.to_nat degree = Some start
    /\ clampKnotVectorLeft degree knots = Some knots'
    /\ length knots' = length knots
    /\ forall j : nat,
         knots' !! j
         = if decide (Z.of_nat j < degree) then Some start else knots !! j.
Proof.
  intros Hd Hmax Hsz.
  destruct (lookup_lt_is_Some_2 knots (Z.to_nat degree)) as [start Hstart];
    [lia|].
  destruct (fill_loop (Z.to_nat degree) 0 start knots)
    as (knots' & Hrun & Hl & Hget); [lia|lia|done|].
  exists start, knots'. split; [done|]. split.
  - unfold clampKnotVectorLeft. rewrite at_Some by lia.
    rewrite Hstart. simpl. by rewrite for_int_in_range by lia.
  - split; [done|]. intros j. rewrite Hget.
    repeat case_decide; try done; lia.
Qed.

(** what [clampKnotVectorRight] leaves at each index *)
Lemma clampKnotVectorRight_lookup (degree : Z) (knots : list T) :
  0 <= degree < Z.of_nat (length knots) -> degree <= INT_MAX ->
  is_size_t (Z.of_nat (length knots)) ->
  exists (end_ : T) (knots' : list T),
    knots !! Z.to_nat (Z.of_nat (length knots) - degree - 1) = Some end_
    /\ clampKnotVectorRight degree knots = Some knots'
    /\ length knots' = length knots
    /\ forall j : nat,
         knots' !! j
         = if decide (Z.of_nat (length knots) - degree <= Z.of_nat j
                      < Z.of_nat (length knots))
           then Some end_ else knots !! j.
Proof.
  intros Hd Hmax Hsz.
  destruct (lookup_lt_is_Some_2 knots
              (Z.to_nat (Z.of_nat (length knots) - degree - 1)))
    as [end_ Hend]; [lia|].
  destruct (fill_down_loop (Z.to_nat degree) 0 end_ knots)
    as (knots' & Hrun & Hl & Hget); [lia|lia|done|].
  exists end_, knots'. split; [done|]. split.
  - unfold clampKnotVectorRight. unfold is_size_t in Hsz.
    rewrite u64_small by lia. rewrite at_Some by lia.
    rewrite Hend. simpl. by rewrite for_int_in_range by lia.
  - split; [done|]. intros j. rewrite Hget.
    repeat case_decide; try done; lia.
Qed.

(** a clamper that has run to its end has not overflowed its counter *)
Lemma clampKnotVectorLeft_Some_range (degree : Z) (knots knots' : list T) :
  clampKnotVectorLeft degree knots = Some knots' -> degree <= INT_MAX.
Proof.
  unfold clampKnotVectorLeft.
  destruct (at_ knots degree) as [start|]; [simpl|done].
  intros Hrun. apply for_int_Some in Hrun as [_ Hn].
  unfold INT_MAX in *. lia.
Qed.

End ClamperMore.

(** X1. For [degree <= INT_MAX], [clampKnotVectorRight] needs no more
    than [degree < size]: it then
    overwrites the last [degree] knots with the knot at index
    [size - degree - 1], so the last [degree + 1] knots all equal that old
    value, and every knot at an index up to [size - degree - 1] is
    unchanged. *)
Theorem clampKnotVectorRight_spec {T : Type} `{Scalar T}
    (degree : Z) (knots : list T) :
  0 <= degree < Z.of_nat (length knots) -> degree <= INT_MAX ->
  is_size_t (Z.of_nat (length knots)) ->
  exists (end_ : T) (knots' : list T),
    knots !! Z.to_nat (Z.of_nat (length knots) - degree - 1) = Some end_
    /\ clampKnotVectorRight degree knots = Some knots'
    /\ length knots' = length knots
    /\ (forall i : nat,
          Z.of_nat (length knots) - degree - 1 <= Z.of_nat i
          < Z.of_nat (length knots) -> knots' !! i = Some end_)
    /\ (forall i : nat,
          Z.of_nat i <= Z.of_nat (length knots) - degree - 1 ->
          knots' !! i = knots !! i).
Proof.
  intros Hd Hmax Hsz.
  destruct (clampKnotVectorRight_lookup degree knots Hd Hmax Hsz)
    as (end_ & knots' & Hend & Hrun & Hl & Hget).
  exists end_, knots'. repeat split; try done.
  - intros i Hi. rewrite Hget. case_decide; [done|].
    rewrite <- Hend. f_equal. lia.
  - intros i Hi. rewrite Hget. case_decide; [lia|done].
Qed.

Lemma clampKnotVectorRight_spec_witness :
  exists (end_ : Q) (knots' : list Q),
    [1; 2; 3]%Q !! Z.to_nat (Z.of_nat (length [1; 2; 3]%Q) - 2 - 1)
    = Some end_
    /\ clampKnotVectorRight 2 [1; 2; 3]%Q = Some knots'
    /\ length knots' = length [1; 2; 3]%Q
    /\ (forall i : nat,
          Z.of_nat (length [1; 2; 3]%Q) - 2 - 1 <= Z.of_nat i
          < Z.of_nat (length [1; 2; 3]%Q) -> knots' !! i = Some end_)
    /\ (forall i : nat,
          Z.of_nat i <= Z.of_nat (length [1; 2; 3]%Q) - 2 - 1 ->
          knots' !! i = [1; 2; 3]%Q !! i).
Proof.
  apply (clampKnotVectorRight_spec 2 [1; 2; 3]%Q);
    unfold is_size_t, INT_MAX; simpl; lia.
Defined.

(** X2. For [degree <= INT_MAX] and a knot vector longer than
    [2 * degree], [clampKnotVector]
    makes the first [degree + 1] knots equal to the old [knots[degree]] and
    the last [degree + 1] knots equal to the old
    [knots[size - degree - 1]], and leaves the knots between the two
    unchanged. *)
Theorem clampKnotVector_spec {T : Type} `{Scalar T}
    (degree : Z) (knots : list T) :
  0 <= degree <= INT_MAX -> 2 * degree < Z.of_nat (length knots) ->
  is_size_t (Z.of_nat (length knots)) ->
  exists (start end_ : T) (knots' : list T),
    knots !! Z.to_nat degree = Some start
    /\ knots !! Z.to_nat (Z.of_nat (length knots) - degree - 1) = Some end_
    /\ clampKnotVector degree knots = Some knots'
    /\ length knots' = length knots
    /\ (forall i : nat, Z.of_nat i <= degree -> knots' !! i = Some start)
    /\ (forall i : nat,
          Z.of_nat (length knots) - degree - 1 <= Z.of_nat i
          < Z.of_nat (length knots) -> knots' !! i = Some end_)
    /\ (forall i : nat,
          degree <= Z.of_nat i <= Z.of_nat (length knots) - degree - 1 ->
          knots' !! i = knots !! i).
Proof.
  intros Hd Hlen Hsz.
  destruct (clampKnotVectorLeft_lookup degree knots)
    as (start & k1 & Hstart & Hrun1 & Hl1 & Hget1); [lia|lia|done|].
  destruct (clampKnotVectorRight_lookup degree k1)
    as (end_ & k2 & Hend & Hrun2 & Hl2 & Hget2);
    [rewrite Hl1; lia|lia|by rewrite Hl1|].
  rewrite Hl1 in Hend, Hget2.
  assert (Hend' : knots !! Z.to_nat (Z.of_nat (length knots) - degree - 1)
                  = Some end_).
  { rewrite <- Hend, Hget1. case_decide; [lia|done]. }
  exists start, end_, k2. split; [done|]. split; [done|]. split.
  { unfold clampKnotVector. rewrite Hrun1. simpl. done. }
  split; [congruence|]. split; [|split]; intros i Hi; rewrite Hget2, Hget1.
  - repeat case_decide; try done; try lia.
    rewrite <- Hstart. f_equal. lia.
  - repeat case_decide; try done; try lia.
    rewrite <- Hend'. f_equal. lia.
  - repeat case_decide; try done; lia.
Qed.

Lemma clampKnotVector_spec_witness :
  exists (start end_ : Q) (knots' : list Q),
    [1; 2; 3; 4; 5; 6; 7]%Q !! Z.to_nat 2 = Some start
    /\ [1; 2; 3; 4; 5; 6; 7]%Q
         !! Z.to_nat (Z.of_nat (length [1; 2; 3; 4; 5; 6; 7]%Q) - 2 - 1)
       = Some end_
    /\ clampKnotVector 2 [1; 2; 3; 4; 5; 6; 7]%Q = Some knots'
    /\ length knots' = length [1; 2; 3; 4; 5; 6; 7]%Q
    /\ (forall i : nat, Z.of_nat i <= 2 -> knots' !! i = Some start)
    /\ (forall i : nat,
          Z.of_nat (length [1; 2; 3; 4; 5; 6; 7]%Q) - 2 - 1 <= Z.of_nat i
          < Z.of_nat (length [1; 2; 3; 4; 5; 6; 7]%Q) ->
          knots' !! i = Some end_)
    /\ (forall i : nat,
          2 <= Z.of_nat i
          <= Z.of_nat (length [1; 2; 3; 4; 5; 6; 7]%Q) - 2 - 1 ->
          knots' !! i = [1; 2; 3; 4; 5; 6; 7]%Q !! i).
Proof.
  apply (clampKnotVector_spec 2 [1; 2; 3; 4; 5; 6; 7]%Q);
    unfold is_size_t, INT_MAX; simpl; lia.
Defined.

(** X3. For [degree <= INT_MAX], the three clampers stay inside the
    vector exactly when [degree < size]: with at most [degree] knots each
    of them reads out of range, and with more each of them runs to its
    end, also when the vector is not longer than [2 * degree]. *)
Theorem clampers_in_bounds_iff {T : Type} `{Scalar T}
    (degree : Z) (knots : list T) :
  0 <= degree <= INT_MAX -> is_size_t (Z.of_nat (length knots)) ->
  (is_Some (clampKnotVectorLeft degree knots)
   <-> degree < Z.of_nat (length knots))
  /\ (is_Some (clampKnotVectorRight degree knots)
      <-> degree < Z.of_nat (length knots))
  /\ (is_Some (clampKnotVector degree knots)
      <-> degree < Z.of_nat (length knots)).
Proof.
  intros Hd Hsz. pose proof Hd as Hd'. unfold INT_MAX in Hd'.
  assert (HL : degree < Z.of_nat (length knots) ->
               exists k1, clampKnotVectorLeft degree knots = Some k1
                          /\ length k1 = length knots).
  { intros Hlt.
    destruct (clampKnotVectorLeft_lookup degree knots)
      as (? & k1 & _ & Hrun & Hl & _); [lia|lia|done|]. by exists k1. }
  assert (HR : forall k : list T, length k = length knots ->
               degree < Z.of_nat (length knots) ->
               is_Some (clampKnotVectorRight degree k)).
  { intros k Hk Hlt.
    destruct (clampKnotVectorRight_lookup degree k)
      as (? & k2 & _ & Hrun & _); [rewrite Hk; lia|lia|by rewrite Hk|].
    by exists k2. }
  assert (HLn : Z.of_nat (length knots) <= degree ->
                clampKnotVectorLeft degree knots = None).
  { intros Hge. unfold clampKnotVectorLeft. by rewrite at_None. }
  assert (HRn : Z.of_nat (length knots) <= degree ->
                clampKnotVectorRight degree knots = None).
  { intros Hge. unfold clampKnotVectorRight. unfold is_size_t in Hsz.
    rewrite at_None; [done|]. unfold u64.
    replace (Z.of_nat (length knots) - degree - 1)
      with (Z.of_nat (length knots) - degree - 1 + 2 ^ 64 + (-1) * 2 ^ 64)
      by lia.
    rewrite Z.mod_add by lia. rewrite Z.mod_small by lia. lia. }
  split; [|split]; split.
  - intros [k Hk]. destruct (Z.lt_ge_cases degree (Z.of_nat (length knots)));
      [done|]. rewrite HLn in Hk by done. done.
  - intros Hlt. destruct (HL Hlt) as (k1 & -> & _). by eexists.
  - intros [k Hk]. destruct (Z.lt_ge_cases degree (Z.of_nat (length knots)));
      [done|]. rewrite HRn in Hk by done. done.
  - by apply HR.
  - intros [k Hk]. destruct (Z.lt_ge_cases degree (Z.of_nat (length knots)));
      [done|]. unfold clampKnotVector in Hk. rewrite HLn in Hk by done. done.
  - intros Hlt. destruct (HL Hlt) as (k1 & Hrun & Hl1).
    unfold clampKnotVector. rewrite Hrun. simpl. by apply HR.
Qed.

Lemma clampers_in_bounds_iff_witness :
  (is_Some (clampKnotVectorLeft 2 [1; 2]%Q)
   <-> 2 < Z.of_nat (length [1; 2]%Q))
  /\ (is_Some (clampKnotVectorRight 2 [1; 2]%Q)
      <-> 2 < Z.of_nat (length [1; 2]%Q))
  /\ (is_Some (clampKnotVector 2 [1; 2]%Q)
      <-> 2 < Z.of_nat (length [1; 2]%Q)).
Proof.
  apply (clampers_in_bounds_iff 2 [1; 2]%Q);
    unfold is_size_t, INT_MAX; simpl; lia.
Defined.

(** X4. Clamping is idempotent: a knot vector that [clampKnotVector] has
    produced is left as it is by a second call, whether or not the two
    ends overlap. *)
Theorem clampKnotVector_idempotent {T : Type} `{Scalar T}
    (degree : Z) (knots knots' : list T) :
  0 <= degree < Z.of_nat (length knots) ->
  is_size_t (Z.of_nat (length knots)) ->
  clampKnotVector degree knots = Some knots' ->
  clampKnotVector degree knots' = Some knots'.
Proof.
  intros Hd Hsz Hrun.
  assert (Hmax : degree <= INT_MAX).
  { unfold clampKnotVector in Hrun.
    destruct (clampKnotVectorLeft degree knots) as [k|] eqn:E; [|done].
    by eapply clampKnotVectorLeft_Some_range. }
  destruct (clampKnotVectorLeft_lookup degree knots)
    as (s1 & k1 & Hs1 & Hr1 & Hl1 & Hg1); [lia|done|done|].
  destruct (clampKnotVectorRight_lookup degree k1)
    as (e1 & k2 & He1 & Hr2 & Hl2 & Hg2);
    [rewrite Hl1; lia|done|by rewrite Hl1|].
  unfold clampKnotVector in Hrun. rewrite Hr1 in Hrun. simpl in Hrun.
  rewrite Hr2 in Hrun. injection Hrun as <-.
  destruct (clampKnotVectorLeft_lookup degree k2)
    as (s2 & k3 & Hs2 & Hr3 & Hl3 & Hg3); [lia|done|congruence|].
  destruct (clampKnotVectorRight_lookup degree k3)
    as (e2 & k4 & He2 & Hr4 & Hl4 & Hg4); [lia|done|congruence|].
  unfold clampKnotVector. rewrite Hr3. simpl. rewrite Hr4. f_equal.
  assert (E3 : length k3 = length knots) by congruence.
  assert (E2 : length k2 = length knots) by congruence.
  rewrite ?E3, ?E2, ?Hl1 in He1, He2, Hg2, Hg4.
  rewrite Hg1 in He1. rewrite Hg2, Hg1 in Hs2.
  rewrite Hg3, Hg2, Hg1 in He2.
  apply list_eq. intros j. rewrite Hg4, Hg3, !Hg2, !Hg1.
  repeat case_decide; try done; try lia; try congruence.
Qed.

Lemma clampKnotVector_idempotent_witness :
  clampKnotVector 2 [3; 3; 3; 4; 5; 5; 5]%Q = Some [3; 3; 3; 4; 5; 5; 5]%Q.
Proof.
  apply (clampKnotVector_idempotent 2 [1; 2; 3; 4; 5; 6; 7]%Q);
    [simpl; lia | unfold is_size_t; simpl; lia | reflexivity].
Defined.

Section ValidatorMore.
Context {T : Type} `{Scalar T}.

(** [std::is_sorted] in terms of the neighbours it compares *)
Lemma is_sorted_lookup (l : list T) :
  is_sorted l = true
  <-> forall (i : nat) (x y : T),
        l !! i = Some x -> l !! S i = Some y -> s_ltb y x = false.
Proof.
  induction l as [|a l IH]; [by split|].
  destruct l as [|b l].
  - split; [|done]. intros _ [|i] x y Hx Hy; done.
  - change (is_sorted (a :: b :: l))
      with (negb (s_ltb b a) && is_sorted (b :: l)).
    rewrite andb_true_iff, negb_true_iff, IH. split.
    + intros [Hab Hrest] [|i] x y Hx Hy.
      * simpl in Hx, Hy. congruence.
      * by apply (Hrest i).
    + intros Hall. split.
      * by apply (Hall 0%nat).
      * intros i x y Hx Hy. by apply (Hall (S i)).
Qed.

(** the verdict of the loop of [isKnotVectorClosed] when all its accesses
    are inside the vector *)
Lemma closedLoop_verdict (n : nat) (i degree : Z) (knots : list T) :
  0 <= i -> i + Z.of_nat n <= degree + 2 -> degree + 2 <= INT_MAX ->
  degree + 2 <= Z.of_nat (length knots) ->
  is_size_t (Z.of_nat (length knots)) ->
  exists b : bool,
    closedLoop n i degree knots = Some b
    /\ (b = true
        <-> forall j : Z, i <= j < i + Z.of_nat n ->
              exists x y : T,
                knots !! Z.to_nat j = Some x
                /\ knots !! Z.to_nat (Z.of_nat (length knots) - degree - 2 + j)
                   = Some y
                /\ s_ltb s_eps (s_abs (s_sub x y)) = false).
Proof.
  revert i. induction n as [|n IH]; intros i Hi Hn Hmax Hlen Hsz.
  - exists true. split; [done|]. split; [|done]. intros _ j Hj. lia.
  - cbn [closedLoop]. unfold is_size_t in Hsz.
    rewrite (u64_small i) by lia. rewrite u64_small by lia.
    rewrite !at_Some by lia.
    destruct (lookup_lt_is_Some_2 knots (Z.to_nat i)) as [x Hx]; [lia|].
    destruct (lookup_lt_is_Some_2 knots
                (Z.to_nat (Z.of_nat (length knots) - degree - 2 + i)))
      as [y Hy]; [lia|].
    rewrite Hx, Hy. simpl.
    destruct (s_ltb s_eps (s_abs (s_sub x y))) eqn:Ecmp.
    + exists false. split; [done|]. split; [done|].
      intros Hall. destruct (Hall i) as (x' & y' & Hx' & Hy' & Hc); [lia|].
      congruence.
    + destruct (Z.ltb_spec i INT_MAX); [|lia].
      destruct (IH (i + 1)) as (b & Hrun & Hb);
        [lia|lia|done|done|unfold is_size_t; lia|].
      exists b. split; [done|]. rewrite Hb. split.
      * intros Hall j Hj. destruct (Z.eq_dec j i) as [->|Hne].
        -- by exists x, y.
        -- apply Hall. lia.
      * intros Hall j Hj. apply Hall. lia.
Qed.

End ValidatorMore.

(** X5. [isKnotVectorMonotonic] answers [true] exactly for the knot
    vectors that are non-decreasing end to end (exact arithmetic): each
    knot is at most every later one. The empty and the one-knot vector are
    monotonic. *)
Theorem isKnotVectorMonotonic_iff (knots : list Q) :
  isKnotVectorMonotonic knots = true
  <-> forall (i j : nat) (x y : Q),
        (i <= j)%nat -> knots !! i = Some x -> knots !! j = Some y ->
        (x <= y)%Q.
Proof.
  unfold isKnotVectorMonotonic. rewrite is_sorted_lookup.
  assert (Hcmp : forall x y : Q, s_ltb y x = false <-> (x <= y)%Q).
  { intros x y.
    change (s_ltb y x)
      with (match (y ?= x)%Q with Lt => true | _ => false end).
    unfold Qcompare, Qle.
    destruct (Z.compare_spec (Qnum y * QDen x) (Qnum x * QDen y));
      split; intros; try done; lia. }
  split.
  - intros Hadj i j x y Hij. revert y.
    induction Hij as [|j Hij IH]; intros y Hx Hy.
    + replace y with x by congruence. apply Qle_refl.
    + destruct (lookup_lt_is_Some_2 knots j) as [z Hz].
      { apply lookup_lt_Some in Hy. lia. }
      apply Qle_trans with z; [by apply IH|].
      apply Hcmp. by apply (Hadj j).
  - intros Hall i x y Hx Hy. apply Hcmp. apply (Hall i (S i)); [lia|done..].
Qed.

(** X6. Clamping keeps a monotonic knot vector monotonic, for every scalar
    type whose [<] is irreflexive: when [isKnotVectorMonotonic] accepts
    [knots], [degree < size] and [degree <= INT_MAX], [clampKnotVector]
    runs to its end and [isKnotVectorMonotonic] accepts the result. *)
Theorem clampKnotVector_keeps_monotonic {T : Type} `{Scalar T}
    (degree : Z) (knots : list T) :
  (forall x : T, s_ltb x x = false) ->
  0 <= degree < Z.of_nat (length knots) -> degree <= INT_MAX ->
  is_size_t (Z.of_nat (length knots)) ->
  isKnotVectorMonotonic knots = true ->
  exists knots' : list T,
    clampKnotVector degree knots = Some knots'
    /\ isKnotVectorMonotonic knots' = true.
Proof.
  intros Hirr Hd Hmax Hsz Hsorted. unfold isKnotVectorMonotonic in *.
  rewrite is_sorted_lookup in Hsorted.
  destruct (clampKnotVectorLeft_lookup degree knots)
    as (s1 & k1 & Hs1 & Hr1 & Hl1 & Hg1); [lia|done|done|].
  destruct (clampKnotVectorRight_lookup degree k1)
    as (e1 & k2 & He1 & Hr2 & Hl2 & Hg2);
    [rewrite Hl1; lia|done|by rewrite Hl1|].
  exists k2. split.
  { unfold clampKnotVector. rewrite Hr1. simpl. done. }
  assert (Hk1 : forall (i : nat) (x y : T),
            k1 !! i = Some x -> k1 !! S i = Some y -> s_ltb y x = false).
  { intros i x y. rewrite !Hg1.
    repeat case_decide; try lia.
    - intros [= <-] [= <-]. apply Hirr.
    - intros [= <-] Hy.
      replace (S i) with (Z.to_nat degree) in Hy by lia.
      replace y with s1 by congruence. apply Hirr.
    - apply Hsorted. }
  apply is_sorted_lookup. intros i x y. rewrite !Hg2. rewrite Hl1 in *.
  repeat case_decide.
  - intros [= <-] [= <-]. apply Hirr.
  - intros Hx Hy. apply lookup_lt_Some in Hy. rewrite Hl1 in Hy. lia.
  - intros Hx [= <-].
    replace i with (Z.to_nat (Z.of_nat (length knots) - degree - 1))
      in Hx by lia.
    replace x with e1 by congruence. apply Hirr.
  - apply Hk1.
Qed.

Lemma Q_ltb_irrefl (x : Q) : s_ltb x x = false.
Proof.
  change (s_ltb x x) with (match (x ?= x)%Q with Lt => true | _ => false end).
  by rewrite (proj1 (Qeq_alt x x) (Qeq_refl x)).
Qed.

Lemma clampKnotVector_keeps_monotonic_witness :
  exists knots' : list Q,
    clampKnotVector 2 [1; 2; 3; 4; 5; 6; 7]%Q = Some knots'
    /\ isKnotVectorMonotonic knots' = true.
Proof.
  apply (clampKnotVector_keeps_monotonic 2 [1; 2; 3; 4; 5; 6; 7]%Q);
    [apply Q_ltb_irrefl | simpl; lia | unfold INT_MAX; lia
    | unfold is_size_t; simpl; lia | reflexivity].
Defined.

(** X7. With at least [degree + 2] knots (and [degree + 2] within
    [int]), [isKnotVectorClosed] answers [true] exactly when, for
    each [i] from 0 to [degree + 1], the difference of [knots[i]] and
    [knots[size - degree - 2 + i]] is not above epsilon in absolute value,
    and [false] otherwise. *)
Theorem isKnotVectorClosed_verdict {T : Type} `{Scalar T}
    (degree : Z) (knots : list T) :
  0 <= degree <= INT_MAX - 2 ->
  degree + 2 <= Z.of_nat (length knots) ->
  is_size_t (Z.of_nat (length knots)) ->
  exists b : bool,
    isKnotVectorClosed degree knots = Some b
    /\ (b = true
        <-> forall i : Z, 0 <= i <= degree + 1 ->
              exists x y : T,
                knots !! Z.to_nat i = Some x
                /\ knots !! Z.to_nat (Z.of_nat (length knots) - degree - 2 + i)
                   = Some y
                /\ s_ltb s_eps (s_abs (s_sub x y)) = false).
Proof.
  intros Hd Hlen Hsz. unfold isKnotVectorClosed.
  rewrite u32_small by (unfold INT_MAX, UINT_MAX in *; lia).
  destruct (closedLoop_verdict (Z.to_nat (degree + 2)) 0 degree knots)
    as (b & Hrun & Hb); [lia|lia|lia|done|done|].
  exists b. split; [done|]. rewrite Hb.
  split; intros Hall i Hi; apply Hall; lia.
Qed.

Lemma isKnotVectorClosed_verdict_witness :
  exists b : bool,
    isKnotVectorClosed 2 [0; 1; 2; 3; 0; 1; 2; 3]%Q = Some b
    /\ (b = true
        <-> forall i : Z, 0 <= i <= 2 + 1 ->
              exists x y : Q,
                [0; 1; 2; 3; 0; 1; 2; 3]%Q !! Z.to_nat i = Some x
                /\ [0; 1; 2; 3; 0; 1; 2; 3]%Q
                     !! Z.to_nat
                          (Z.of_nat (length [0; 1; 2; 3; 0; 1; 2; 3]%Q)
                           - 2 - 2 + i) = Some y
                /\ s_ltb s_eps (s_abs (s_sub x y)) = false).
Proof.
  apply (isKnotVectorClosed_verdict 2 [0; 1; 2; 3; 0; 1; 2; 3]%Q);
    unfold is_size_t, INT_MAX; simpl; lia.
Defined.

(** * Further properties of the builders *)

Section BuilderMore.
Context {T : Type} `{Scalar T}.

(** the loop of the uniform builder pushes the accumulated sums [u],
    [u + step], [(u + step) + step], ... as long as they are [<= 1.0] *)
Lemma uniformLoop_sums (fuel : nat) (step u : T) (acc r : list T) :
  uniformLoop fuel step u acc = Some r ->
  exists l : list T,
    r = acc ++ l
    /\ (forall (i : nat) (x : T),
          l !! i = Some x
          -> x = Nat.iter i (fun z => s_add z step) u
             /\ s_leb x s_one = true)
    /\ s_leb (Nat.iter (length l) (fun z => s_add z step) u) s_one = false.
Proof.
  revert u acc. induction fuel as [|fuel IH]; intros u acc; simpl; [done|].
  destruct (s_leb u s_one) eqn:Eu.
  - intros Hrun. destruct (IH _ _ Hrun) as (l & -> & Hl & Hend).
    exists (u :: l). split; [by rewrite <- app_assoc|]. split.
    + intros [|i] x Hx.
      * injection Hx as <-. done.
      * destruct (Hl i x Hx) as [-> Hle]. split; [|done].
        by rewrite Nat.iter_succ_r.
    + change (length (u :: l)) with (S (length l)).
      by rewrite Nat.iter_succ_r.
  - intros [= <-]. exists []. split; [by rewrite app_nil_r|].
    split; [done|]. done.
Qed.

End BuilderMore.

(** X9. For every scalar type, what a successful [makeUniformKnotVector]
    leaves is the sequence of accumulated sums 0, 0 + step,
    (0 + step) + step, ... with [step] the [double] quotient
    [1.0 / (nKnots - 1)] as a [T]: knot [i] is
    the [i]-fold sum, every knot is [<= 1.0], and the sum that would come
    next is not. The number of knots is thus decided by the comparison of
    the accumulated sums with 1.0, not by [nKnots]. *)
Theorem makeUniformKnotVector_accumulates {T : Type} `{Scalar T}
    (fuel : nat) (degree nCtrlPts : Z) (knots r : list T) :
  makeUniformKnotVector fuel degree nCtrlPts knots = Returned true r ->
  let step :=
    s_of_double
      (Binary64.div (Binary64.of_int 1)
         (Binary64.of_int (nKnotsOf degree nCtrlPts - 1))) in
  (forall (i : nat) (x : T),
     r !! i = Some x
     -> x = Nat.iter i (fun z => s_add z step) s_zero
        /\ s_leb x s_one = true)
  /\ s_leb (Nat.iter (length r) (fun z => s_add z step) s_zero) s_one = false.
Proof.
  unfold makeUniformKnotVector.
  destruct (tooFewCtrlPts degree nCtrlPts); [done|].
  destruct (nKnotsOf degree nCtrlPts =? INT_MIN); [done|].
  destruct (nKnotsOf degree nCtrlPts <? 0); [done|].
  destruct (uniformLoop _ _ _ _) as [l|] eqn:Hrun; [|done].
  intros [= <-].
  destruct (uniformLoop_sums _ _ _ _ _ Hrun) as (l' & -> & Hl & Hend).
  simpl. split; done.
Qed.

Lemma makeUniformKnotVector_accumulates_witness :
  let step : spec_float :=
    s_of_double
      (Binary64.div (Binary64.of_int 1) (Binary64.of_int (nKnotsOf 2 4 - 1))) in
  (forall (i : nat) (x : spec_float),
     Scenario.uniform_2_4_double !! i = Some x
     -> x = Nat.iter i (fun z => s_add z step) s_zero
        /\ s_leb x s_one = true)
  /\ s_leb (Nat.iter (length Scenario.uniform_2_4_double)
              (fun z => s_add z step) s_zero) s_one = false.
Proof.
  apply (makeUniformKnotVector_accumulates (H:=Binary64.double_Scalar)
           8 2 4 [] Scenario.uniform_2_4_double).
  vm_compute. reflexivity.
Defined.

(** X12. When the count [nCtrlPts + degree + 1] is above 2^31 and below
    2^32, its [int] value is negative (and not [INT_MIN]) and [reserve]
    throws [std::length_error]: both builders leave through the
    exception, and the caller's vector has been emptied by then. *)
Theorem builders_throw_length_error {T : Type} `{Scalar T}
    (fuel : nat) (degree nCtrlPts : Z) (knots : list T) :
  0 <= degree -> degree + 1 <= nCtrlPts ->
  2 ^ 31 < nCtrlPts + degree + 1 < 2 ^ 32 ->
  makeUniformKnotVector fuel degree nCtrlPts knots = LengthError []
  /\ makeClampedUniformKnotVector degree nCtrlPts knots = LengthError [].
Proof.
  intros Hd Hn Hrange.
  unfold makeUniformKnotVector, makeClampedUniformKnotVector.
  rewrite tooFewCtrlPts_false by lia.
  assert (HnK : nKnotsOf degree nCtrlPts = nCtrlPts + degree + 1 - 2 ^ 32).
  { unfold nKnotsOf. rewrite u64_small by lia. unfold s32.
    replace (nCtrlPts + degree + 1 + 2 ^ 31)
      with (nCtrlPts + degree + 1 - 2 ^ 31 + 1 * 2 ^ 32) by lia.
    rewrite Z.mod_add by lia. rewrite Z.mod_small by lia. lia. }
  rewrite HnK.
  destruct (Z.eqb_spec (nCtrlPts + degree + 1 - 2 ^ 32) INT_MIN) as [E|_];
    [unfold INT_MIN in E; lia|].
  destruct (Z.ltb_spec (nCtrlPts + degree + 1 - 2 ^ 32) 0); [done|lia].
Qed.

Lemma builders_throw_length_error_witness :
  makeUniformKnotVector (T:=Q) 8 0 2147483649 [7 # 1]%Q = LengthError []
  /\ makeClampedUniformKnotVector (T:=Q) 0 2147483649 [7 # 1]%Q
     = LengthError [].
Proof.
  apply (builders_throw_length_error (T:=Q) 8 0 2147483649 [7 # 1]%Q); lia.
Defined.

(** *** binary64 arithmetic: the clamped-uniform builder and the
    validator *)

Lemma SFltb_SFleb (x y : spec_float) : SFltb x y = true -> SFleb x y = true.
Proof. unfold SFltb, SFleb. by destruct (SFcompare x y) as [[]|]. Qed.

(** [x <= y] excludes [y < x] *)
Lemma SFleb_not_gt (x y : spec_float) : SFleb x y = true -> SFltb y x = false.
Proof.
  unfold SFleb, SFltb.
  destruct x as [sx|sx| |sx mx ex], y as [sy|sy| |sy my ey]; simpl;
    try done; try (by destruct sx); try (by destruct sy);
    try (by destruct sx, sy).
  change (Pos.compare_cont Eq mx my) with (Pos.compare mx my).
  change (Pos.compare_cont Eq my mx) with (Pos.compare my mx).
  rewrite (Z.compare_antisym ex ey), (Pos.compare_antisym mx my).
  destruct sx, sy; try done;
    destruct (ex ?= ey); simpl; try done;
    destruct (mx ?= my)%positive; simpl; done.
Qed.

(** X10. For [double] and counts that fit [int], the vector of the
    clamped-uniform builder has [nCtrlPts + degree + 1] knots and is
    accepted by [isKnotVectorMonotonic], although its last interior knot
    can fall short of 1.0. *)
Theorem makeClampedUniformKnotVector_monotonic (degree nCtrlPts : Z)
    (knots : list spec_float) :
  0 <= degree -> degree + 1 <= nCtrlPts ->
  nCtrlPts + degree + 1 <= INT_MAX ->
  exists r : list spec_float,
    makeClampedUniformKnotVector degree nCtrlPts knots = Returned true r
    /\ length r = Z.to_nat (nCtrlPts + degree + 1)
    /\ isKnotVectorMonotonic r = true.
Proof.
  intros Hd Hn Hmax.
  pose proof (makeClampedUniformKnotVector_closed_form
                (H:=Binary64.double_Scalar) degree nCtrlPts knots Hd Hn Hmax)
    as Hrun.
  cbv zeta in Hrun.
  replace (nCtrlPts + degree + 1 - 2 * degree)
    with (nCtrlPts - degree + 1) in Hrun by lia.
  set (m := nCtrlPts - degree) in *.
  assert (Hm : 1 <= m < 2 ^ 31) by (subst m; unfold INT_MAX in Hmax; lia).
  destruct (interiorKnot_double_order m Hm) as (H0 & Hlt & Hle).
  set (f := interiorKnot (H:=Binary64.double_Scalar) (m + 1)) in *.
  set (r := replicate (Z.to_nat degree) s_zero ++ (f <$> seqZ 0 (m + 1))
              ++ replicate (Z.to_nat degree) s_one) in *.
  exists r. split; [done|].
  assert (Hlen : Z.of_nat (length r) = 2 * degree + m + 1).
  { subst r. rewrite !length_app, !length_replicate, length_fmap,
      length_seqZ. lia. }
  split; [subst m; lia|].
  assert (Hr : forall j : nat,
            r !! j
            = if decide (Z.of_nat j < degree) then Some (S754_zero false)
              else if decide (Z.of_nat j <= degree + m)
                   then Some (f (Z.of_nat j - degree))
                   else if decide (Z.of_nat j < 2 * degree + m + 1)
                        then Some (Binary64.of_int 1) else None).
  { intros j. subst r. repeat case_decide.
    - rewrite lookup_app_l by (rewrite length_replicate; lia).
      apply lookup_replicate_2. lia.
    - rewrite lookup_app_r by (rewrite length_replicate; lia).
      rewrite length_replicate.
      rewrite lookup_app_l by (rewrite length_fmap, length_seqZ; lia).
      rewrite list_lookup_fmap, lookup_seqZ_lt by lia. simpl.
      do 2 f_equal. lia.
    - rewrite lookup_app_r by (rewrite length_replicate; lia).
      rewrite length_replicate.
      rewrite lookup_app_r by (rewrite length_fmap, length_seqZ; lia).
      rewrite length_fmap, length_seqZ.
      apply lookup_replicate_2. lia.
    - apply lookup_ge_None.
      rewrite !length_app, !length_replicate, length_fmap, length_seqZ.
      lia. }
  unfold isKnotVectorMonotonic. apply is_sorted_lookup.
  intros i x y Hx Hy. apply SFleb_not_gt.
  rewrite Hr in Hx, Hy. repeat case_decide; try done; try lia;
    injection Hx as <-; injection Hy as <-.
  - done.
  - apply Hle. lia.
  - apply SFltb_SFleb. apply Hlt; lia.
  - apply Hle. lia.
  - done.
Qed.

Lemma makeClampedUniformKnotVector_monotonic_witness :
  exists r : list spec_float,
    makeClampedUniformKnotVector 2 4 [] = Returned true r
    /\ length r = Z.to_nat (4 + 2 + 1)
    /\ isKnotVectorMonotonic r = true.
Proof.
  apply (makeClampedUniformKnotVector_monotonic 2 4 []); unfold INT_MAX; lia.
Defined.

(** X21. In [double] the vector of the clamped-uniform builder is not
    always a fixed point of [clampKnotVector]: for degree 1 and 50
    control points the knot at index [size - degree - 1] is the last
    interior knot, [1 - 2^-53], and [clampKnotVectorRight] overwrites the
    final 1.0 with it. *)
Theorem clampKnotVector_changes_clamped_uniform :
  let r := default [] (success (makeClampedUniformKnotVector
                                  (H:=Binary64.double_Scalar) 1 50 [])) in
  length r = 52%nat
  /\ r !! 50%nat = Some (Scenario.dbl 9007199254740991 (-53))
  /\ r !! 51%nat = Some (Binary64.of_int 1)
  /\ (clampKnotVector 1 r ≫= (.!! 51%nat))
     = Some (Scenario.dbl 9007199254740991 (-53))
  /\ clampKnotVector 1 r <> Some r.
Proof.
  repeat split; try (vm_compute; reflexivity).
  intros Heq. apply (f_equal (fun o => o ≫= (.!! 51%nat))) in Heq.
  vm_compute in Heq. discriminate.
Qed.

(** *** Exact arithmetic: the validator *)

Lemma Q_ltb_false_iff (x y : Q) : s_ltb y x = false <-> (x <= y)%Q.
Proof.
  change (s_ltb y x)
    with (match (y ?= x)%Q with Lt => true | _ => false end).
  unfold Qcompare, Qle.
  destruct (Z.compare_spec (Qnum y * QDen x) (Qnum x * QDen y));
    split; intros; try done; lia.
Qed.

(** * Further properties of the insertion *)

Lemma for_upM_S {S : Type} (n : nat) (lo : Z)
    (body : Z -> S -> option S) (s : S) :
  for_upM (Datatypes.S n) lo body s
  = match body lo s with
    | Some s' => for_upM n (lo + 1) body s'
    | None => None
    end.
Proof. reflexivity. Qed.

Lemma for_upM_snoc {S : Type} (n : nat) (lo : Z)
    (body : Z -> S -> option S) (s : S) :
  for_upM (Datatypes.S n) lo body s
  = match for_upM n lo body s with
    | Some s' => body (lo + Z.of_nat n) s'
    | None => None
    end.
Proof.
  revert lo s. induction n as [|n IH]; intros lo s.
  - cbn [for_upM]. rewrite Z.add_0_r. by destruct (body lo s).
  - rewrite (for_upM_S (Datatypes.S n) lo), (for_upM_S n lo).
    destruct (body lo s) as [s'|]; [|done].
    rewrite IH.
    by replace (lo + 1 + Z.of_nat n) with (lo + Z.of_nat (Datatypes.S n))
      by lia.
Qed.

(** a loop fails when one of its iterations fails on every state *)
Lemma for_upM_fails {S : Type} (n : nat) (lo i : Z)
    (body : Z -> S -> option S) (s : S) :
  lo <= i < lo + Z.of_nat n ->
  (forall s' : S, body i s' = None) ->
  for_upM n lo body s = None.
Proof.
  revert lo s. induction n as [|n IH]; intros lo s Hi Hfail; [lia|].
  cbn [for_upM]. destruct (Z.eq_dec lo i) as [->|Hne].
  - by rewrite Hfail.
  - destruct (body lo s) as [s'|]; [|done]. apply IH; [lia|done].
Qed.

Section InsertionMore.
Context {T : Type} `{Scalar T}.
Variable n : nat.
Variable elsewhere : T -> Z -> list T -> Z.

(** the loop over the window, iteration by iteration: the points outside
    the window stay, and point [i] of the window becomes the blend of the
    point [i - 1] as the loop has left it with the point [i] as it was
    before the loop *)
Lemma blend_loop_trace (cnt : nat) (lo : Z) (u : T) (deg : Z)
    (knots : list T) (c1 : list (@vec T)) :
  1 <= lo -> 0 <= deg ->
  lo + Z.of_nat cnt <= Z.of_nat (length c1) ->
  lo + Z.of_nat cnt + deg <= Z.of_nat (length knots) ->
  Z.of_nat (length c1) <= INT_MAX -> Z.of_nat (length knots) <= INT_MAX ->
  exists cp' : list (@vec T),
    for_upM cnt lo
      (fun i cp =>
         a ← coeff u knots (u64 i) (u32 (i + deg)) (u64 i);
         blendAt a i cp) c1 = Some cp'
    /\ length cp' = length c1
    /\ (forall j : nat,
          ~ (lo <= Z.of_nat j < lo + Z.of_nat cnt) -> cp' !! j = c1 !! j)
    /\ (forall i : Z, lo <= i < lo + Z.of_nat cnt ->
          exists (a : T) (p q : @vec T),
            coeff u knots i (i + deg) i = Some a
            /\ cp' !! Z.to_nat (i - 1) = Some p
            /\ c1 !! Z.to_nat i = Some q
            /\ cp' !! Z.to_nat i = Some (blend a p q)).
Proof.
  intros Hlo Hdeg. induction cnt as [|cnt IH]; intros Hcp Hk Hmc Hmk.
  - exists c1. split; [done|]. split; [done|]. split; [done|].
    intros i Hi. lia.
  - destruct IH as (s & Hrun & Hls & Hframe & Hrec); [lia..|].
    rewrite for_upM_snoc, Hrun. unfold INT_MAX in Hmc, Hmk.
    set (i := lo + Z.of_nat cnt).
    rewrite (u64_small i) by (subst i; lia).
    rewrite u32_small by (unfold UINT_MAX; subst i; lia).
    destruct (coeff_is_Some u knots i (i + deg) i) as [a Ha];
      [subst i; lia..|].
    rewrite Ha. simpl. unfold blendAt.
    rewrite !u64_small by (subst i; lia).
    rewrite !at_Some by (rewrite Hls; subst i; lia).
    destruct (lookup_lt_is_Some_2 s (Z.to_nat (i - 1))) as [p Hp];
      [rewrite Hls; subst i; lia|].
    destruct (lookup_lt_is_Some_2 s (Z.to_nat i)) as [q Hq];
      [rewrite Hls; subst i; lia|].
    rewrite Hp, Hq. simpl.
    rewrite vec_set_Some by (rewrite Hls; subst i; lia).
    eexists. split; [done|].
    split; [by rewrite length_insert|]. split.
    + intros j Hj. rewrite list_lookup_insert_ne by (subst i; lia).
      apply Hframe. lia.
    + intros i' Hi'. destruct (Z.eq_dec i' i) as [->|Hne].
      * exists a, p, q. split; [done|]. split; [|split].
        -- rewrite list_lookup_insert_ne by (subst i; lia). done.
        -- rewrite <- Hq. symmetry. apply Hframe. subst i. lia.
        -- apply list_lookup_insert_eq. rewrite Hls. subst i. lia.
      * destruct (Hrec i') as (a' & p' & q' & Ha' & Hp' & Hq' & Hb');
          [subst i; lia|].
        exists a', p', q'. split; [done|].
        rewrite !list_lookup_insert_ne by (subst i; lia). done.
Qed.

(** the whole of a call whose window is inside the vectors *)
Lemma curveInsertKnot_trace (u : T) (deg : Z) (knots : list T)
    (cp : list (@vec T)) :
  let span := findSpan elsewhere u deg knots in
  0 <= deg <= span ->
  span + deg <= Z.of_nat (length knots) ->
  span <= Z.of_nat (length cp) ->
  Z.of_nat (length knots) < INT_MAX -> Z.of_nat (length cp) < INT_MAX ->
  exists (knots' : list T) (c1 cp' : list (@vec T)),
    knots' = take (Z.to_nat span) knots ++ u :: drop (Z.to_nat span) knots
    /\ c1 = take (Z.to_nat span) cp
              ++ tvecn n s_zero :: drop (Z.to_nat span) cp
    /\ curveInsertKnot n elsewhere u deg knots cp = Some (knots', cp')
    /\ length cp' = S (length cp)
    /\ (forall j : nat,
          ~ (span - deg + 1 <= Z.of_nat j <= span) -> cp' !! j = c1 !! j)
    /\ (forall i : Z, span - deg + 1 <= i <= span ->
          exists (a : T) (p q : @vec T),
            coeff u knots' i (i + deg) i = Some a
            /\ cp' !! Z.to_nat (i - 1) = Some p
            /\ c1 !! Z.to_nat i = Some q
            /\ cp' !! Z.to_nat i = Some (blend a p q)).
Proof.
  intros span Hdeg Hk Hcp Hmk Hmc. unfold curveInsertKnot.
  fold span. unfold INT_MAX in Hmk, Hmc.
  rewrite (vec_insert_Some knots) by lia.
  rewrite (vec_insert_Some cp) by lia. simpl.
  set (k1 := take (Z.to_nat span) knots ++ u :: drop (Z.to_nat span) knots).
  set (c1 := take (Z.to_nat span) cp
               ++ tvecn n s_zero :: drop (Z.to_nat span) cp).
  assert (Hlk : length k1 = S (length knots)).
  { eapply vec_insert_length. apply vec_insert_Some. lia. }
  assert (Hlc : length c1 = S (length cp)).
  { eapply vec_insert_length. apply vec_insert_Some. lia. }
  rewrite (s32_small (span - deg + 1)) by (unfold INT_MAX; lia).
  replace (Z.to_nat (span - (span - deg + 1) + 1)) with (Z.to_nat deg)
    by lia.
  rewrite for_int_in_range by (unfold INT_MAX; lia).
  destruct (blend_loop_trace (Z.to_nat deg) (span - deg + 1) u deg k1 c1)
    as (cp' & Hrun & Hl' & Hframe & Hrec);
    rewrite ?Hlk, ?Hlc; unfold INT_MAX; try lia.
  rewrite Hrun. simpl.
  exists k1, c1, cp'. repeat split; try done.
  - congruence.
  - intros j Hj. apply Hframe. lia.
  - intros i Hi. apply Hrec. lia.
Qed.

End InsertionMore.

(** X13. A completed [curveInsertKnot] touches the control points of the
    window [span - deg + 1 .. span] only: the points before the window
    keep their index and their value, and the points after index [span]
    are the old points from [span] on, moved up by one. For [deg = 0] the
    window is empty and the point at [span] stays the zero vector that was
    inserted. *)
Theorem curveInsertKnot_frame {T : Type} `{Scalar T} (n : nat)
    (elsewhere : T -> Z -> list T -> Z) (u : T) (deg : Z) (knots : list T) (cp : list (@vec T)) :
  0 <= deg <= findSpan elsewhere u deg knots ->
  findSpan elsewhere u deg knots + deg <= Z.of_nat (length knots) ->
  findSpan elsewhere u deg knots <= Z.of_nat (length cp) ->
  Z.of_nat (length knots) < INT_MAX -> Z.of_nat (length cp) < INT_MAX ->
  exists (knots' : list T) (cp' : list (@vec T)),
    curveInsertKnot n elsewhere u deg knots cp = Some (knots', cp')
    /\ (forall j : nat,
          Z.of_nat j < findSpan elsewhere u deg knots - deg + 1 ->
          Z.of_nat j < findSpan elsewhere u deg knots ->
          cp' !! j = cp !! j)
    /\ (forall j : nat,
          findSpan elsewhere u deg knots < Z.of_nat j ->
          cp' !! j = cp !! (j - 1)%nat)
    /\ (deg = 0 ->
        cp' !! Z.to_nat (findSpan elsewhere u deg knots) = Some (tvecn n s_zero)).
Proof.
  intros Hdeg Hk Hcp Hmk Hmc.
  destruct (curveInsertKnot_trace n elsewhere u deg knots cp Hdeg Hk Hcp Hmk Hmc)
    as (knots' & c1 & cp' & _ & Hc1 & Hrun & _ & Hframe & _).
  exists knots', cp'. split; [done|].
  set (span := findSpan elsewhere u deg knots) in *.
  assert (Hlt : length (take (Z.to_nat span) cp) = Z.to_nat span)
    by (rewrite length_take; lia).
  split; [|split].
  - intros j Hj Hj'. rewrite Hframe by lia. rewrite Hc1.
    rewrite lookup_app_l by lia. apply lookup_take_lt. lia.
  - intros j Hj. rewrite Hframe by lia. rewrite Hc1.
    rewrite lookup_app_r by lia. rewrite Hlt.
    destruct (j - Z.to_nat span)%nat as [|k] eqn:Ek; [lia|].
    simpl. rewrite lookup_drop. f_equal. lia.
  - intros ->. rewrite Hframe by lia. rewrite Hc1.
    rewrite lookup_app_r by lia. by rewrite Hlt, Nat.sub_diag.
Qed.

Lemma curveInsertKnot_frame_witness :
  exists (knots' : list Q) (cp' : list (list Q)),
    curveInsertKnot 2 Scenario.first_span (1 # 2)%Q 2 Scenario.knots8 Scenario.cp8
    = Some (knots', cp')
    /\ (forall j : nat,
          Z.of_nat j < findSpan Scenario.first_span (1 # 2)%Q 2 Scenario.knots8 - 2 + 1 ->
          Z.of_nat j < findSpan Scenario.first_span (1 # 2)%Q 2 Scenario.knots8 ->
          cp' !! j = Scenario.cp8 !! j)
    /\ (forall j : nat,
          findSpan Scenario.first_span (1 # 2)%Q 2 Scenario.knots8 < Z.of_nat j ->
          cp' !! j = Scenario.cp8 !! (j - 1)%nat)
    /\ (2 = 0 ->
        cp' !! Z.to_nat (findSpan Scenario.first_span (1 # 2)%Q 2 Scenario.knots8)
        = Some (tvecn 2 s_zero)).
Proof.
  apply (curveInsertKnot_frame 2 Scenario.first_span (1 # 2)%Q 2 Scenario.knots8 Scenario.cp8);
    vm_compute; intuition discriminate.
Defined.

(** X14. Inside the window a completed [curveInsertKnot] follows this
    recurrence, for every scalar type: the point at [i < span] becomes the
    blend, with the coefficient read from the knot vector after the
    insertion, of the point [i - 1] as the loop has already left it and of
    the old point [i]; the point at [span] becomes the blend of the new
    point [span - 1] and of the zero vector that was inserted. *)
Theorem curveInsertKnot_recurrence {T : Type} `{Scalar T} (n : nat)
    (elsewhere : T -> Z -> list T -> Z) (u : T) (deg : Z) (knots : list T) (cp : list (@vec T)) :
  0 <= deg <= findSpan elsewhere u deg knots ->
  findSpan elsewhere u deg knots + deg <= Z.of_nat (length knots) ->
  findSpan elsewhere u deg knots <= Z.of_nat (length cp) ->
  Z.of_nat (length knots) < INT_MAX -> Z.of_nat (length cp) < INT_MAX ->
  exists (knots' : list T) (cp' : list (@vec T)),
    curveInsertKnot n elsewhere u deg knots cp = Some (knots', cp')
    /\ (forall i : Z,
          findSpan elsewhere u deg knots - deg + 1 <= i < findSpan elsewhere u deg knots ->
          exists (a : T) (p q : @vec T),
            coeff u knots' i (i + deg) i = Some a
            /\ cp' !! Z.to_nat (i - 1) = Some p
            /\ cp !! Z.to_nat i = Some q
            /\ cp' !! Z.to_nat i = Some (blend a p q))
    /\ (1 <= deg ->
        exists (a : T) (p : @vec T),
          coeff u knots' (findSpan elsewhere u deg knots)
            (findSpan elsewhere u deg knots + deg) (findSpan elsewhere u deg knots) = Some a
          /\ cp' !! Z.to_nat (findSpan elsewhere u deg knots - 1) = Some p
          /\ cp' !! Z.to_nat (findSpan elsewhere u deg knots)
             = Some (blend a p (tvecn n s_zero))).
Proof.
  intros Hdeg Hk Hcp Hmk Hmc.
  destruct (curveInsertKnot_trace n elsewhere u deg knots cp Hdeg Hk Hcp Hmk Hmc)
    as (knots' & c1 & cp' & _ & Hc1 & Hrun & _ & _ & Hrec).
  exists knots', cp'. split; [done|].
  set (span := findSpan elsewhere u deg knots) in *.
  assert (Hlt : length (take (Z.to_nat span) cp) = Z.to_nat span)
    by (rewrite length_take; lia).
  split.
  - intros i Hi. destruct (Hrec i) as (a & p & q & Ha & Hp & Hq & Hb);
      [lia|].
    exists a, p, q. repeat split; try done.
    rewrite <- Hq, Hc1. rewrite lookup_app_l by lia.
    symmetry. apply lookup_take_lt. lia.
  - intros Hd1. destruct (Hrec span) as (a & p & q & Ha & Hp & Hq & Hb);
      [lia|].
    exists a, p. repeat split; try done.
    rewrite Hb. do 2 f_equal.
    rewrite Hc1 in Hq. rewrite lookup_app_r in Hq by lia.
    rewrite Hlt, Nat.sub_diag in Hq. simpl in Hq. congruence.
Qed.

Lemma curveInsertKnot_recurrence_witness :
  exists (knots' : list Q) (cp' : list (list Q)),
    curveInsertKnot 2 Scenario.first_span (1 # 2)%Q 2 Scenario.knots8 Scenario.cp8
    = Some (knots', cp')
    /\ (forall i : Z,
          findSpan Scenario.first_span (1 # 2)%Q 2 Scenario.knots8 - 2 + 1 <= i
          < findSpan Scenario.first_span (1 # 2)%Q 2 Scenario.knots8 ->
          exists (a : Q) (p q : list Q),
            coeff (1 # 2)%Q knots' i (i + 2) i = Some a
            /\ cp' !! Z.to_nat (i - 1) = Some p
            /\ Scenario.cp8 !! Z.to_nat i = Some q
            /\ cp' !! Z.to_nat i = Some (blend a p q))
    /\ (1 <= 2 ->
        exists (a : Q) (p : list Q),
          coeff (1 # 2)%Q knots' (findSpan Scenario.first_span (1 # 2)%Q 2 Scenario.knots8)
            (findSpan Scenario.first_span (1 # 2)%Q 2 Scenario.knots8 + 2)
            (findSpan Scenario.first_span (1 # 2)%Q 2 Scenario.knots8) = Some a
          /\ cp' !! Z.to_nat (findSpan Scenario.first_span (1 # 2)%Q 2 Scenario.knots8 - 1)
             = Some p
          /\ cp' !! Z.to_nat (findSpan Scenario.first_span (1 # 2)%Q 2 Scenario.knots8)
             = Some (blend a p (tvecn 2 s_zero))).
Proof.
  apply (curveInsertKnot_recurrence 2 Scenario.first_span (1 # 2)%Q 2
           Scenario.knots8 Scenario.cp8);
    vm_compute; intuition discriminate.
Defined.

(** *** Exact arithmetic: the blend at index [span] *)

Lemma Q_coeff_at_inserted_knot (u d : Q) : s_div (s_sub u u) d = 0%Q.
Proof.
  change (Qred (Qred (u - u) / d) = 0%Q).
  assert (E : Qred (u - u) = 0%Q).
  { change 0%Q with (Qred 0). apply Qred_complete. ring. }
  rewrite E. change 0%Q with (Qred 0) at 2. apply Qred_complete.
  unfold Qdiv. apply Qmult_0_l.
Qed.

Lemma Q_blend_zero (p : list Q) (n : nat) :
  length p = n -> Forall2 Qeq (blend 0%Q p (tvecn n 0%Q)) p.
Proof.
  revert n. induction p as [|x p IH]; intros [|n] Hn; try done.
  injection Hn as Hn. specialize (IH n Hn).
  unfold blend, vadd, vscale, tvecn in *. simpl.
  constructor; [|exact IH].
  simpl. rewrite !Qred_correct. ring.
Qed.

(** X15. In exact arithmetic, when no denominator of the window
    vanishes, the blend coefficient of [curveInsertKnot] at index [span]
    is zero, because [knots[span]] is the knot [u] that has just been
    inserted there: for [deg >= 1] the control point at [span] ends as a
    copy of the one at [span - 1]. *)
Theorem curveInsertKnot_copies_predecessor (n : nat)
    (elsewhere : Q -> Z -> list Q -> Z) (u : Q) (deg : Z) (knots : list Q)
    (cp : list (list Q)) :
  1 <= deg <= findSpan elsewhere u deg knots ->
  findSpan elsewhere u deg knots + deg <= Z.of_nat (length knots) ->
  findSpan elsewhere u deg knots <= Z.of_nat (length cp) ->
  Z.of_nat (length knots) < INT_MAX -> Z.of_nat (length cp) < INT_MAX ->
  (forall (i : Z) (a b : Q),
     findSpan elsewhere u deg knots - deg + 1 <= i
     <= findSpan elsewhere u deg knots ->
     (take (Z.to_nat (findSpan elsewhere u deg knots)) knots
        ++ u :: drop (Z.to_nat (findSpan elsewhere u deg knots)) knots)
       !! Z.to_nat (i + deg) = Some a ->
     (take (Z.to_nat (findSpan elsewhere u deg knots)) knots
        ++ u :: drop (Z.to_nat (findSpan elsewhere u deg knots)) knots)
       !! Z.to_nat i = Some b ->
     ~ (a == b)%Q) ->
  exists (knots' : list Q) (cp' : list (list Q)) (p q : list Q),
    curveInsertKnot n elsewhere u deg knots cp = Some (knots', cp')
    /\ cp' !! Z.to_nat (findSpan elsewhere u deg knots - 1) = Some p
    /\ cp' !! Z.to_nat (findSpan elsewhere u deg knots) = Some q
    /\ (length p = n -> Forall2 Qeq q p).
Proof.
  intros Hdeg Hk Hcp Hmk Hmc _.
  assert (Hdeg' : 0 <= deg <= findSpan elsewhere u deg knots) by lia.
  destruct (curveInsertKnot_trace n elsewhere u deg knots cp
              Hdeg' Hk Hcp Hmk Hmc)
    as (knots' & c1 & cp' & Hk1 & Hc1 & Hrun & _ & _ & Hrec).
  set (span := findSpan elsewhere u deg knots) in *.
  destruct (Hrec span) as (a & p & q & Ha & Hp & Hq & Hb); [lia|].
  unfold vec in *.
  assert (Hltc : length (take (Z.to_nat span) cp) = Z.to_nat span)
    by (rewrite length_take; lia).
  assert (Hltk : length (take (Z.to_nat span) knots) = Z.to_nat span)
    by (rewrite length_take; lia).
  assert (Hq0 : q = tvecn n 0%Q).
  { rewrite Hc1 in Hq. rewrite lookup_app_r in Hq by lia.
    rewrite Hltc, Nat.sub_diag in Hq. simpl in Hq. congruence. }
  assert (Ha0 : a = 0%Q).
  { unfold coeff in Ha.
    assert (Hu : at_ knots' span = Some u).
    { rewrite at_Some.
      - rewrite Hk1. rewrite lookup_app_r by lia.
        by rewrite Hltk, Nat.sub_diag.
      - rewrite Hk1, length_app. cbn [length].
        rewrite length_take, length_drop. lia. }
    rewrite Hu in Ha. simpl in Ha.
    destruct (at_ knots' (span + deg)) as [khi|]; [|done].
    simpl in Ha. injection Ha as <-. apply Q_coeff_at_inserted_knot. }
  subst a q.
  exists knots', cp', p, (blend 0%Q p (tvecn n 0%Q)).
  split; [done|]. split; [done|]. split; [done|].
  apply Q_blend_zero.
Qed.

Lemma curveInsertKnot_copies_predecessor_witness :
  exists (knots' : list Q) (cp' : list (list Q)) (p q : list Q),
    curveInsertKnot 2 Scenario.first_span (5 # 2)%Q 2
      Scenario.knotsU Scenario.cp8
    = Some (knots', cp')
    /\ cp' !! Z.to_nat (findSpan Scenario.first_span (5 # 2)%Q 2
                          Scenario.knotsU - 1) = Some p
    /\ cp' !! Z.to_nat (findSpan Scenario.first_span (5 # 2)%Q 2
                          Scenario.knotsU) = Some q
    /\ (length p = 2%nat -> Forall2 Qeq q p).
Proof.
  apply (curveInsertKnot_copies_predecessor 2 Scenario.first_span
           (5 # 2)%Q 2 Scenario.knotsU Scenario.cp8);
    try (vm_compute; intuition discriminate).
  change (findSpan Scenario.first_span (5 # 2)%Q 2 Scenario.knotsU) with 2.
  intros i a b Hi Ha Hb.
  assert (Ei : i = 1 \/ i = 2) by lia.
  destruct Ei as [-> | ->]; vm_compute in Ha, Hb;
    injection Ha as <-; injection Hb as <-; vm_compute; discriminate.
Defined.

(** a loop whose states keep an invariant fails when one of its
    iterations fails on every state with the invariant *)
Lemma for_upM_fails_inv {S : Type} (P : S -> Prop) (n : nat) (lo i : Z)
    (body : Z -> S -> option S) (s : S) :
  (forall (j : Z) (s1 s2 : S), P s1 -> body j s1 = Some s2 -> P s2) ->
  P s ->
  lo <= i < lo + Z.of_nat n ->
  (forall s' : S, P s' -> body i s' = None) ->
  for_upM n lo body s = None.
Proof.
  intros Hinv. revert lo s.
  induction n as [|n IH]; intros lo s Hs Hi Hfail; [lia|].
  cbn [for_upM]. destruct (Z.eq_dec lo i) as [->|Hne].
  - by rewrite Hfail.
  - destruct (body lo s) as [s'|] eqn:E; [|done].
    apply IH; [by eapply Hinv|lia|done].
Qed.

(** X16. [curveInsertKnot] stays inside its two vectors exactly when the
    span index that [findSpan] answers satisfies [deg <= span],
    [span + deg <= size of knots] and [span <= size of cp]; otherwise it
    reads or writes out of range. *)
Theorem curveInsertKnot_in_bounds_iff {T : Type} `{Scalar T} (n : nat)
    (elsewhere : T -> Z -> list T -> Z) (u : T) (deg : Z) (knots : list T) (cp : list (@vec T)) :
  0 <= deg <= INT_MAX ->
  Z.of_nat (length knots) < INT_MAX -> Z.of_nat (length cp) < INT_MAX ->
  is_Some (curveInsertKnot n elsewhere u deg knots cp)
  <-> deg <= findSpan elsewhere u deg knots
      /\ findSpan elsewhere u deg knots + deg <= Z.of_nat (length knots)
      /\ findSpan elsewhere u deg knots <= Z.of_nat (length cp).
Proof.
  intros Hdeg Hmk Hmc. split.
  - intros [[knots' cp'] Hrun]. unfold curveInsertKnot in Hrun.
    set (span := findSpan elsewhere u deg knots) in *.
    destruct (vec_insert knots span u) as [k1|] eqn:Ek; [|done].
    simpl in Hrun.
    destruct (vec_insert cp span (tvecn n s_zero)) as [c1|] eqn:Ec; [|done].
    simpl in Hrun.
    pose proof (vec_insert_length _ _ _ _ Ek) as Hlk.
    pose proof (vec_insert_length _ _ _ _ Ec) as Hlc.
    assert (Hs : 0 <= span <= Z.of_nat (length knots)
                 /\ span <= Z.of_nat (length cp)).
    { unfold vec_insert in Ek, Ec.
      destruct (Z.leb_spec 0 span); [|done].
      destruct (Z.leb_spec span (Z.of_nat (length knots))); [|done].
      destruct (Z.leb_spec span (Z.of_nat (length cp))); [|done]. lia. }
    unfold INT_MAX in *.
    rewrite (s32_small (span - deg + 1)) in Hrun by (unfold INT_MAX; lia).
    replace (Z.to_nat (span - (span - deg + 1) + 1)) with (Z.to_nat deg)
      in Hrun by lia.
    destruct (for_int _ _ _ c1) as [c2|] eqn:Eloop; [|done].
    apply for_int_Some in Eloop as [Eloop _].
    destruct (Z.eq_dec deg 0) as [->|Hd0]; [lia|].
    destruct (Z.lt_ge_cases span deg) as [Hlt|Hge].
    + exfalso.
      rewrite (for_upM_fails_inv (fun s => length s = length c1)
                 _ _ (span - deg + 1)) in Eloop; try done; try lia.
      * intros j s1 s2 Hs1 Hb.
        destruct (coeff _ _ _ _ _) as [a|]; simpl in Hb; [|done].
        apply blendAt_length in Hb. congruence.
      * intros s' Hs'.
        destruct (coeff _ _ _ _ _) as [a|] eqn:Ea; simpl; [|done].
        unfold blendAt.
        rewrite (at_None s' (u64 (span - deg + 1 - 1))); [reflexivity|].
        rewrite Hs', Hlc.
        destruct (Z.eq_dec (span - deg + 1) 0) as [E0|Hne].
        -- rewrite E0. change (u64 (0 - 1)) with 18446744073709551615. lia.
        -- exfalso. unfold coeff in Ea.
           rewrite (at_None k1) in Ea; [simpl in Ea; done|].
           rewrite Hlk. unfold u64.
           replace (span - deg + 1)
             with (span - deg + 1 + 2 ^ 64 + (-1) * 2 ^ 64) by lia.
           rewrite Z.mod_add by lia. rewrite Z.mod_small by lia. lia.
    + split; [lia|]. split; [|lia].
      destruct (Z.le_gt_cases (span + deg) (Z.of_nat (length knots)))
        as [Hle|Hgt]; [done|]. exfalso.
      rewrite (for_upM_fails _ _ span) in Eloop; try done; try lia.
      intros s'. unfold coeff.
      destruct (at_ k1 (u64 span)); [simpl|reflexivity].
      rewrite (at_None k1); [reflexivity|].
      rewrite Hlk. rewrite u32_small by (unfold UINT_MAX; lia). lia.
  - intros (H1 & H2 & H3).
    destruct (curveInsertKnot_trace n elsewhere u deg knots cp)
      as (knots' & c1 & cp' & _ & _ & Hrun & _); [lia..|].
    rewrite Hrun. by eexists.
Qed.

Lemma curveInsertKnot_in_bounds_iff_witness :
  is_Some (curveInsertKnot 2 Scenario.first_span (1 # 2)%Q 2 Scenario.knotsU Scenario.cp8)
  <-> 2 <= findSpan Scenario.first_span (1 # 2)%Q 2 Scenario.knotsU
      /\ findSpan Scenario.first_span (1 # 2)%Q 2 Scenario.knotsU + 2
         <= Z.of_nat (length Scenario.knotsU)
      /\ findSpan Scenario.first_span (1 # 2)%Q 2 Scenario.knotsU
         <= Z.of_nat (length Scenario.cp8).
Proof.
  apply (curveInsertKnot_in_bounds_iff 2 Scenario.first_span (1 # 2)%Q 2
           Scenario.knotsU Scenario.cp8);
    unfold INT_MAX; simpl; lia.
Defined.

(** a quantity that each iteration keeps is kept by the loop *)
Lemma for_upM_keeps {S A : Type} (f : S -> A) (n : nat) (lo : Z)
    (body : Z -> S -> option S) (s s' : S) :
  (forall (j : Z) (s1 s2 : S), body j s1 = Some s2 -> f s2 = f s1) ->
  for_upM n lo body s = Some s' -> f s' = f s.
Proof.
  intros Hkeep. revert lo s. induction n as [|n IH]; intros lo s; cbn [for_upM].
  - by intros [= <-].
  - destruct (body lo s) as [s1|] eqn:E; [|done].
    intros Hrun. rewrite (IH _ _ Hrun). by eapply Hkeep.
Qed.

Lemma for_int_keeps {S A : Type} (f : S -> A) (n : nat) (lo : Z)
    (body : Z -> S -> option S) (s s' : S) :
  (forall (j : Z) (s1 s2 : S), body j s1 = Some s2 -> f s2 = f s1) ->
  for_int n lo body s = Some s' -> f s' = f s.
Proof.
  intros Hkeep Hrun. apply for_int_Some in Hrun as [Hrun _].
  by eapply for_upM_keeps.
Qed.

Section SurfaceMore.
Context {T : Type} `{Scalar T}.
Variable n : nat.

Lemma insertInRow_lengths (span i : Z) (cp cp' : list (list (@vec T))) :
  0 <= i < 2 ^ 64 ->
  insertInRow n span i cp = Some cp' ->
  exists len : nat,
    (length <$> cp) !! Z.to_nat i = Some len
    /\ length <$> cp' = <[Z.to_nat i := S len]> (length <$> cp).
Proof.
  intros Hi. unfold insertInRow. rewrite u64_small by lia.
  destruct (at_ cp i) as [row|] eqn:Erow; [simpl|done].
  destruct (vec_insert row span _) as [row'|] eqn:Eins; [simpl|done].
  intros Hset. apply at_inv in Erow as [_ Erow].
  apply vec_set_inv in Hset as ->. exists (length row). split.
  - by rewrite list_lookup_fmap, Erow.
  - rewrite list_fmap_insert. f_equal. by eapply vec_insert_length.
Qed.

Lemma insertRows_lengths (k : nat) (span : Z)
    (cp c1 : list (list (@vec T))) :
  Z.of_nat k < 2 ^ 64 ->
  for_upM k 0 (insertInRow n span) cp = Some c1 ->
  forall r : nat,
    (length <$> c1) !! r
    = (fun x => if decide (r < k)%nat then S x else x)
        <$> ((length <$> cp) !! r).
Proof.
  revert c1. induction k as [|k IH]; intros c1 Hk.
  - cbn [for_upM]. intros [= <-] r.
    by destruct ((length <$> cp) !! r).
  - rewrite for_upM_snoc.
    destruct (for_upM k 0 (insertInRow n span) cp) as [s|] eqn:Es; [|done].
    intros Hlast r. specialize (IH s ltac:(lia) eq_refl).
    apply insertInRow_lengths in Hlast as (len & Hlen & ->); [|lia].
    rewrite Z.add_0_l, Nat2Z.id in *.
    destruct (decide (r = k)) as [->|Hne].
    + rewrite list_lookup_insert_eq by (by eapply lookup_lt_Some).
      rewrite IH in Hlen.
      destruct ((length <$> cp) !! k) as [x|]; simpl in *; [|done].
      repeat case_decide; try lia. congruence.
    + rewrite list_lookup_insert_ne by done. rewrite IH.
      destruct ((length <$> cp) !! r) as [x|]; simpl; [|done].
      repeat case_decide; try lia; done.
Qed.

Lemma blendInRow_lengths (a : T) (i j : Z) (cp cp' : list (list (@vec T))) :
  blendInRow a i j cp = Some cp' -> length <$> cp' = length <$> cp.
Proof.
  unfold blendInRow.
  destruct (at_ cp (u64 i)) as [row|] eqn:Erow; [simpl|done].
  destruct (blendAt a j row) as [row'|] eqn:Eb; [simpl|done].
  intros Hset. apply at_inv in Erow as [_ Erow].
  apply vec_set_inv in Hset as ->. rewrite list_fmap_insert.
  apply list_insert_id. rewrite list_lookup_fmap, Erow. simpl.
  f_equal. symmetry. by eapply blendAt_length.
Qed.

End SurfaceMore.

(** X17. A completed [surfaceInsertKnotU] has inserted [u] at index [span]
    of the knot vector, has kept the number of rows, and has made every
    row of the grid longer by exactly one control point. *)
Theorem surfaceInsertKnotU_shape {T : Type} `{Scalar T} (n : nat)
    (elsewhere : T -> Z -> list T -> Z) (u : T) (deg : Z) (knots knots' : list T)
    (cp cp' : list (list (@vec T))) :
  is_size_t (Z.of_nat (length cp)) ->
  surfaceInsertKnotU n elsewhere u deg knots cp = Some (knots', cp') ->
  knots' = take (Z.to_nat (findSpan elsewhere u deg knots)) knots
             ++ u :: drop (Z.to_nat (findSpan elsewhere u deg knots)) knots
  /\ length knots' = S (length knots)
  /\ length cp' = length cp
  /\ length <$> cp' = (fun row => S (length row)) <$> cp.
Proof.
  intros Hsz. unfold surfaceInsertKnotU.
  set (span := findSpan elsewhere u deg knots).
  destruct (vec_insert knots span u) as [k1|] eqn:Ek; [simpl|done].
  destruct (for_int (length cp) 0 (insertInRow n span) cp) as [c1|] eqn:E1;
    [simpl|done].
  destruct (for_int (length c1) 0 _ c1) as [c2|] eqn:E2; [simpl|done].
  intros [= <- <-]. apply for_int_Some in E1 as [E1 _].
  assert (Hlens : length <$> c2 = (fun row => S (length row)) <$> cp).
  { transitivity (length <$> c1).
    - apply (for_int_keeps (fmap length)) in E2; [done|].
      intros i s1 s2 Hin.
      apply (for_int_keeps (fmap length)) in Hin; [done|].
      intros j s3 s4 Hb.
      destruct (coeff _ _ _ _ _) as [a|]; simpl in Hb; [|done].
      by eapply blendInRow_lengths.
    - apply list_eq. intros r.
      rewrite (insertRows_lengths n (length cp) span cp c1);
        [|unfold is_size_t in Hsz; lia|done].
      rewrite !list_lookup_fmap.
      destruct (cp !! r) as [row|] eqn:Er; simpl; [|done].
      case_decide; [done|]. apply lookup_lt_Some in Er. lia. }
  split.
  { unfold vec_insert in Ek. destruct (_ && _); [|done]. congruence. }
  split; [by eapply vec_insert_length|]. split; [|done].
  apply (f_equal length) in Hlens. by rewrite !length_fmap in Hlens.
Qed.

Lemma surfaceInsertKnotU_shape_witness :
  [0; 1; 2; 3; 4; 11 # 2; 5; 6; 7; 8; 9]%Q
  = take (Z.to_nat (findSpan Scenario.first_span (11 # 2)%Q 2 Scenario.knotsS)) Scenario.knotsS
      ++ (11 # 2)%Q
      :: drop (Z.to_nat (findSpan Scenario.first_span (11 # 2)%Q 2 Scenario.knotsS))
           Scenario.knotsS
  /\ length [0; 1; 2; 3; 4; 11 # 2; 5; 6; 7; 8; 9]%Q
     = S (length Scenario.knotsS)
  /\ length
       [[[0; 0]; [1; 2]; [3; 3]; [4; 0]; [5 # 4; -11 # 4];
         [45 # 14; -99 # 14]; [6; 2]; [7; 0]];
        [[0; 0]; [1; 2]; [3; 3]; [4; 0]; [-1 # 2; -9 # 2];
         [-7 # 5; -63 # 5]; [6; 2]; [7; 0]]]%Q
     = length [Scenario.rowS; Scenario.rowS]
  /\ length
       <$> [[[0; 0]; [1; 2]; [3; 3]; [4; 0]; [5 # 4; -11 # 4];
             [45 # 14; -99 # 14]; [6; 2]; [7; 0]];
            [[0; 0]; [1; 2]; [3; 3]; [4; 0]; [-1 # 2; -9 # 2];
             [-7 # 5; -63 # 5]; [6; 2]; [7; 0]]]%Q
     = (fun row => S (length row)) <$> [Scenario.rowS; Scenario.rowS].
Proof.
  apply (surfaceInsertKnotU_shape 2 Scenario.first_span (11 # 2)%Q 2 Scenario.knotsS _
           [Scenario.rowS; Scenario.rowS]).
  - unfold is_size_t. simpl. lia.
  - vm_compute. reflexivity.
Defined.

(** X18. [surfaceInsertKnotU] reads [knots[i + deg]] with the row index
    [i]: for [deg >= 1], a grid that is not empty and has more than
    [size of knots + 1 - deg] rows makes the call index the knot vector
    out of range, whatever the rows hold and wherever the knot is
    inserted. *)
Theorem surfaceInsertKnotU_rows_out_of_range {T : Type} `{Scalar T}
    (n : nat) (elsewhere : T -> Z -> list T -> Z) (u : T) (deg : Z) (knots : list T)
    (cp : list (list (@vec T))) :
  1 <= deg <= INT_MAX ->
  Z.of_nat (length knots) < INT_MAX -> Z.of_nat (length cp) < INT_MAX ->
  0 < Z.of_nat (length cp) ->
  Z.of_nat (length knots) + 1 - deg < Z.of_nat (length cp) ->
  surfaceInsertKnotU n elsewhere u deg knots cp = None.
Proof.
  intros Hdeg Hmk Hmc Hne Hrows. unfold surfaceInsertKnotU.
  set (span := findSpan elsewhere u deg knots). unfold INT_MAX in *.
  destruct (vec_insert knots span u) as [k1|] eqn:Ek; [simpl|done].
  pose proof (vec_insert_length _ _ _ _ Ek) as Hlk.
  assert (Hs : 0 <= span <= Z.of_nat (length knots)).
  { unfold vec_insert in Ek.
    destruct (Z.leb_spec 0 span); [|done].
    destruct (Z.leb_spec span (Z.of_nat (length knots))); [|done]. lia. }
  destruct (for_int (length cp) 0 (insertInRow n span) cp) as [c1|] eqn:E1;
    [simpl|done].
  assert (Hlc : length c1 = length cp).
  { apply (for_int_keeps length) in E1; [done|].
    intros j s1 s2. unfold insertInRow.
    destruct (at_ s1 (u64 j)) as [row|]; [simpl|done].
    destruct (vec_insert row span _) as [row'|]; [simpl|done].
    intros Hset. apply vec_set_inv in Hset as ->. apply length_insert. }
  rewrite (s32_small (span - deg + 1)) by (unfold INT_MAX; lia).
  replace (Z.to_nat (span - (span - deg + 1) + 1)) with (Z.to_nat deg)
    by lia.
  rewrite for_int_None; [done|].
  apply (for_upM_fails _ _ (Z.max 0 (Z.of_nat (length knots) + 1 - deg)));
    [rewrite Hlc; lia|].
  intros s'. apply for_int_None.
  apply (for_upM_fails _ _ (span - deg + 1)); [lia|].
  intros s''. unfold coeff.
  set (i0 := Z.max 0 (Z.of_nat (length knots) + 1 - deg)).
  rewrite (at_None k1 (u32 (i0 + deg))).
  - by destruct (at_ k1 (u64 i0)).
  - rewrite Hlk. rewrite u32_small by (unfold UINT_MAX; lia). lia.
Qed.

Lemma surfaceInsertKnotU_rows_out_of_range_witness :
  surfaceInsertKnotU 2 Scenario.first_span (5 # 2)%Q 2 Scenario.knotsU
    (replicate 7 Scenario.cp8) = None.
Proof.
  apply (surfaceInsertKnotU_rows_out_of_range 2 Scenario.first_span (5 # 2)%Q 2 Scenario.knotsU
           (replicate 7 Scenario.cp8));
    unfold INT_MAX; simpl; lia.
Defined.

(** * Further compositions in exact arithmetic *)

Lemma vec_insert_lookup_all {A : Type} (v : list A) (pos : nat) (x : A)
    (i : nat) :
  (pos <= length v)%nat ->
  (take pos v ++ x :: drop pos v) !! i
  = if decide (i < pos)%nat then v !! i
    else if decide (i = pos) then Some x else v !! (i - 1)%nat.
Proof.
  intros Hp.
  assert (Hl : length (take pos v) = pos) by (rewrite length_take; lia).
  repeat case_decide.
  - rewrite lookup_app_l by lia. apply lookup_take_lt. lia.
  - subst i. rewrite lookup_app_r by lia. by rewrite Hl, Nat.sub_diag.
  - rewrite lookup_app_r by lia. rewrite Hl.
    destruct (i - pos)%nat as [|k] eqn:Ek; [lia|].
    simpl. rewrite lookup_drop. f_equal. lia.
Qed.

(** the knot vector of a completed insertion *)
Lemma curveInsertKnot_knots {T : Type} `{Scalar T} (n : nat) (elsewhere : T -> Z -> list T -> Z) (u : T)
    (deg : Z) (knots knots' : list T) (cp cp' : list (@vec T)) :
  curveInsertKnot n elsewhere u deg knots cp = Some (knots', cp') ->
  0 <= findSpan elsewhere u deg knots <= Z.of_nat (length knots)
  /\ knots' = take (Z.to_nat (findSpan elsewhere u deg knots)) knots
               ++ u :: drop (Z.to_nat (findSpan elsewhere u deg knots)) knots.
Proof.
  unfold curveInsertKnot.
  destruct (vec_insert knots _ u) as [k1|] eqn:Ek; [simpl|done].
  destruct (vec_insert cp _ _) as [c1|]; [simpl|done].
  destruct (for_int _ _ _ c1) as [c2|]; [simpl|done].
  intros [= <- <-]. unfold vec_insert in Ek.
  destruct (Z.leb_spec 0 (findSpan elsewhere u deg knots)); [|done].
  destruct (Z.leb_spec (findSpan elsewhere u deg knots) (Z.of_nat (length knots)));
    [|done].
  injection Ek as <-. split; [lia|done].
Qed.

(** X19. In exact arithmetic, on a monotonic knot vector and with
    [knots[span] <= u], a completed [curveInsertKnot] leaves a monotonic
    knot vector if and only if [u] equals [knots[span]]: inserting a value
    that is not yet a knot always breaks the order. *)
Theorem curveInsertKnot_monotonic_iff (n : nat) (elsewhere : Q -> Z -> list Q -> Z) (u : Q) (deg : Z)
    (knots knots' : list Q) (cp cp' : list (list Q)) (b : Q) :
  isKnotVectorMonotonic knots = true ->
  knots !! Z.to_nat (findSpan elsewhere u deg knots) = Some b ->
  (b <= u)%Q ->
  curveInsertKnot n elsewhere u deg knots cp = Some (knots', cp') ->
  isKnotVectorMonotonic knots' = true <-> (b == u)%Q.
Proof.
  intros Hsorted Hb Hbu Hrun. unfold isKnotVectorMonotonic in *.
  rewrite is_sorted_lookup in Hsorted.
  apply curveInsertKnot_knots in Hrun as [Hspan ->].
  set (span := findSpan elsewhere u deg knots) in *.
  assert (Hget := fun i => vec_insert_lookup_all knots (Z.to_nat span) u i
                             ltac:(lia)).
  rewrite is_sorted_lookup. split.
  - intros Hs.
    assert (Hub : (u <= b)%Q).
    { apply Q_ltb_false_iff. apply (Hs (Z.to_nat span)); rewrite Hget.
      - repeat case_decide; try lia. done.
      - repeat case_decide; try lia.
        by replace (S (Z.to_nat span) - 1)%nat with (Z.to_nat span) by lia. }
    by apply Qle_antisym.
  - intros Heq i x y. rewrite !Hget.
    repeat case_decide; try lia.
    + apply Hsorted.
    + intros Hx [= <-]. apply Q_ltb_false_iff.
      apply Qle_trans with b; [|done].
      apply Q_ltb_false_iff. apply (Hsorted i); [done|].
      by replace (S i) with (Z.to_nat span) by lia.
    + intros [= <-] Hy. apply Q_ltb_false_iff.
      replace (S i - 1)%nat with (Z.to_nat span) in Hy by lia.
      replace y with b by congruence. rewrite Heq. apply Qle_refl.
    + intros Hx Hy.
      apply (Hsorted (i - 1)%nat); [done|].
      by replace (S (i - 1)) with (S i - 1)%nat by lia.
Qed.

Lemma curveInsertKnot_monotonic_iff_witness :
  isKnotVectorMonotonic [0; 1; 5 # 2; 2; 3; 4; 5; 6]%Q = true
  <-> (2 # 1 == 5 # 2)%Q.
Proof.
  apply (curveInsertKnot_monotonic_iff 2 Scenario.first_span (5 # 2)%Q 2 Scenario.knotsU
           [0; 1; 5 # 2; 2; 3; 4; 5; 6]%Q Scenario.cp8
           [[0; 0]; [3 # 2; 3]; [3 # 2; 3]; [3; 3]; [4; 0]]%Q (2 # 1)%Q);
    try reflexivity.
  vm_compute. discriminate.
Defined.

(** X8. With exactly [degree + 2] knots (and [degree + 2] within [int]),
    [isKnotVectorClosed] compares
    each knot with itself: in exact arithmetic every such vector is
    reported closed, whatever its knots are. *)
Theorem isKnotVectorClosed_smallest (degree : Z) (knots : list Q) :
  0 <= degree <= INT_MAX - 2 ->
  Z.of_nat (length knots) = degree + 2 ->
  isKnotVectorClosed degree knots = Some true.
Proof.
  intros Hd Hlen. unfold isKnotVectorClosed.
  rewrite u32_small by (unfold INT_MAX, UINT_MAX in *; lia).
  destruct (closedLoop_verdict (Z.to_nat (degree + 2)) 0 degree knots)
    as (b & Hrun & Hb);
    [lia|lia|lia|lia|unfold is_size_t, INT_MAX in *; lia|].
  rewrite Hrun. f_equal. apply Hb. intros j Hj.
  destruct (lookup_lt_is_Some_2 knots (Z.to_nat j)) as [x Hx]; [lia|].
  exists x, x. split; [done|]. split.
  - rewrite <- Hx. f_equal. lia.
  - assert (E : s_sub x x = 0%Q).
    { change (Qred (x - x) = Qred 0). apply Qred_complete. ring. }
    rewrite E. reflexivity.
Qed.

Lemma isKnotVectorClosed_smallest_witness :
  isKnotVectorClosed 2 [3; 1; 4; 1 # 5]%Q = Some true.
Proof.
  apply (isKnotVectorClosed_smallest 2 [3; 1; 4; 1 # 5]%Q);
    unfold INT_MAX; simpl; lia.
Defined.
